(** * Region resolution in the storefront middleware

    A shallow embedding of [apps/storefront/src/middleware.ts]: the region
    directory cache ([getRegionMap]), the country-code resolution
    ([getCountryCode]) and the redirect policy ([middleware]).

    The source file carries two renditions of [middleware] that share
    [getRegionMap] and [getCountryCode] verbatim:
    - lines 104-138, embedded in [Module Compact];
    - lines 248-337, embedded in [Module Staged]; this is the rendition
      whose seven-step decision policy the specification describes. *)

From Stdlib Require Import Bool Ascii String List ZArith Lia.
Import ListNotations.
Open Scope string_scope.

Set Implicit Arguments.

(** ** JavaScript string primitives used by the middleware

    Strings are byte strings.  [toLowerCase] folds the ASCII letters, which is
    what [String.prototype.toLowerCase] does on the ASCII-only strings a URL
    path or an ISO-3166 code consists of. *)
Module Js.

(** Truthiness of a string value: every string but [""] is truthy. *)
Definition truthy (s : string) : bool := negb (s =? "").

(** Truthiness of a value that may be [undefined]. *)
Definition truthy_opt (o : option string) : bool :=
  match o with
  | Some s => truthy s
  | None => false
  end.

Definition lower_ascii (c : ascii) : ascii :=
  let n := nat_of_ascii c in
  if (65 <=? n)%nat && (n <=? 90)%nat then ascii_of_nat (n + 32) else c.

Fixpoint toLowerCase (s : string) : string :=
  match s with
  | EmptyString => EmptyString
  | String c s' => String (lower_ascii c) (toLowerCase s')
  end.

(** [s.split(sep)] for a one-character separator: never the empty array. *)
Fixpoint split (sep : ascii) (s : string) : list string :=
  match s with
  | EmptyString => [EmptyString]
  | String c s' =>
      if Ascii.eqb c sep then EmptyString :: split sep s'
      else match split sep s' with
           | [] => [String c EmptyString]
           | seg :: segs => String c seg :: segs
           end
  end.

(** [s.includes(c)] for a one-character needle. *)
Fixpoint includes (c : ascii) (s : string) : bool :=
  match s with
  | EmptyString => false
  | String c' s' => Ascii.eqb c' c || includes c s'
  end.

(** [xs.filter(Boolean)] on an array of strings. *)
Definition filter_Boolean (xs : list string) : list string :=
  filter truthy xs.

(** [a === b] where either side may be [undefined]. *)
Definition strict_eq (a b : option string) : bool :=
  match a, b with
  | Some x, Some y => x =? y
  | None, None => true
  | _, _ => false
  end.

End Js.

(** ** [Map<string, V>]: keys in insertion order *)
Module JsMap.

Definition t (V : Type) : Type := list (string * V).

Definition empty {V : Type} : t V := [].

Definition has {V : Type} (m : t V) (k : string) : bool :=
  existsb (fun kv => fst kv =? k) m.

Fixpoint get {V : Type} (m : t V) (k : string) : option V :=
  match m with
  | [] => None
  | (k', v) :: m' => if k' =? k then Some v else get m' k
  end.

(** [m.set(k, v)]: an existing key keeps its position, a new one goes last. *)
Fixpoint set {V : Type} (m : t V) (k : string) (v : V) : t V :=
  match m with
  | [] => [(k, v)]
  | (k', v') :: m' =>
      if k' =? k then (k', v) :: m' else (k', v') :: set m' k v
  end.

Definition keys {V : Type} (m : t V) : list string := map fst m.

(** [m.keys().next().value]: the first key, [undefined] on an empty map. *)
Definition first_key {V : Type} (m : t V) : option string :=
  match m with
  | [] => None
  | (k, _) :: _ => Some k
  end.

Definition size {V : Type} (m : t V) : nat := List.length m.

End JsMap.

(** ** What [new URL(...)] keeps of a path and a query

    [NextResponse.redirect(url, 307)] answers with [String(new URL(url))] as
    the Location: the URL is parsed and serialised again, and the next
    request of the client carries the pathname and search of that URL.  This
    module holds the part of the URL Standard's parser for [http(s)] URLs
    that bears on the URLs the handlers build.  Dot segments are removed from
    the path; the characters listed below are kept as they are; a URL with
    any other character (one the parser would escape or drop, a backslash, a
    fragment) is left unmodelled: the functions answer [None] for it. *)
Module Url.

Definition letter_or_digit (c : ascii) : bool :=
  let n := nat_of_ascii c in
  ((48 <=? n)%nat && (n <=? 57)%nat)
  || ((65 <=? n)%nat && (n <=? 90)%nat)
  || ((97 <=? n)%nat && (n <=? 122)%nat).

Definition one_of (chars : string) (c : ascii) : bool :=
  existsb (Ascii.eqb c) (list_ascii_of_string chars).

(** The characters of a plain code: letters, digits, hyphen, underscore. *)
Definition plain_char (c : ascii) : bool :=
  letter_or_digit c || one_of "-_" c.

(** Characters the parser leaves as they are inside a path segment. *)
Definition segment_char (c : ascii) : bool :=
  letter_or_digit c || one_of "-._~!$&'()*+,;=:@%" c.

Definition path_char (c : ascii) : bool :=
  segment_char c || Ascii.eqb c "/".

(** Characters the parser leaves as they are inside a query. *)
Definition query_char (c : ascii) : bool :=
  letter_or_digit c || one_of "-._~!$&()*+,;=:@%/?" c.

Fixpoint all_chars (f : ascii -> bool) (s : string) : bool :=
  match s with
  | EmptyString => true
  | String c s' => f c && all_chars f s'
  end.

(** A single-dot path segment: [.] or [%2e], in either letter case. *)
Definition single_dot (seg : string) : bool :=
  let l := Js.toLowerCase seg in
  (l =? ".") || (l =? "%2e").

(** A double-dot path segment. *)
Definition double_dot (seg : string) : bool :=
  let l := Js.toLowerCase seg in
  (l =? "..") || (l =? ".%2e") || (l =? "%2e.") || (l =? "%2e%2e").

Definition dot_segment (seg : string) : bool :=
  single_dot seg || double_dot seg.

(** The parser's path state, a segment at a time; [path] is the path built
    so far.  A double-dot segment shortens the path, a single-dot segment is
    skipped, and either of them in last place leaves an empty segment. *)
Fixpoint remove_dot_segments (path segs : list string) : list string :=
  match segs with
  | [] => path
  | seg :: rest =>
      let closing := match rest with [] => [""] | _ :: _ => [] end in
      if double_dot seg then
        remove_dot_segments (removelast path ++ closing) rest
      else if single_dot seg then
        remove_dot_segments (path ++ closing) rest
      else remove_dot_segments (path ++ [seg]) rest
  end.

(** The path serializer: a slash before every segment. *)
Fixpoint serialize (path : list string) : string :=
  match path with
  | [] => ""
  | seg :: rest => "/" ++ seg ++ serialize rest
  end.

(** The pathname of a URL whose path is written [p]. *)
Definition pathname_of (p : string) : option string :=
  match p with
  | String c rest =>
      if Ascii.eqb c "/" && all_chars path_char rest then
        Some (serialize (remove_dot_segments [] (Js.split "/" rest)))
      else None
  | EmptyString => None
  end.

(** The search of a URL whose query is written [q] (question mark
    included): empty when there is nothing after the question mark. *)
Definition search_of (q : string) : option string :=
  match q with
  | EmptyString => Some ""
  | String _ q' =>
      if all_chars query_char q' then Some (if q' =? "" then "" else q)
      else None
  end.

(** [s] cut in two before its first question mark. *)
Fixpoint split_query (s : string) : string * string :=
  match s with
  | EmptyString => ("", "")
  | String c s' =>
      if Ascii.eqb c "?" then ("", s)
      else (String c (fst (split_query s')), snd (split_query s'))
  end.

Fixpoint strip_prefix (prefix s : string) : option string :=
  match prefix, s with
  | EmptyString, _ => Some s
  | String a prefix', String b s' =>
      if Ascii.eqb a b then strip_prefix prefix' s' else None
  | String _ _, EmptyString => None
  end.

(** The pathname and the search of [new URL(url)], for a [url] that is
    [origin] followed by a path and a query. *)
Definition parse (origin url : string) : option (string * string) :=
  match strip_prefix origin url with
  | Some rest =>
      match pathname_of (fst (split_query rest)),
            search_of (snd (split_query rest)) with
      | Some p, Some q => Some (p, q)
      | _, _ => None
      end
  | None => None
  end.

(** A pathname in serialised form: parsing leaves it as it is. *)
Definition serialized_path (p : string) : bool :=
  match p with
  | String c rest =>
      Ascii.eqb c "/" && all_chars path_char rest
      && forallb (fun seg => negb (dot_segment seg)) (Js.split "/" rest)
  | EmptyString => false
  end.

(** A search in serialised form: empty, or a question mark and a
    non-empty query. *)
Definition serialized_search (q : string) : bool :=
  match q with
  | EmptyString => true
  | String c q' =>
      Ascii.eqb c "?" && negb (q' =? "") && all_chars query_char q'
  end.

End Url.

(** ** Data model *)

Record StoreRegionCountry : Type := { iso_2 : option string }.

Record StoreRegion : Type :=
  { id : string;
    countries : option (list StoreRegionCountry) }.

(** [process.env], as far as the middleware reads it. *)
Record ProcessEnv : Type :=
  { NEXT_PUBLIC_MEDUSA_BACKEND_URL : option string;
    NEXT_PUBLIC_MEDUSA_PUBLISHABLE_KEY : option string;
    NEXT_PUBLIC_DEFAULT_REGION : option string }.

Definition BACKEND_URL (env : ProcessEnv) : option string :=
  NEXT_PUBLIC_MEDUSA_BACKEND_URL env.

Definition PUBLISHABLE_API_KEY (env : ProcessEnv) : option string :=
  NEXT_PUBLIC_MEDUSA_PUBLISHABLE_KEY env.

(** [process.env.NEXT_PUBLIC_DEFAULT_REGION || "dk"] *)
Definition DEFAULT_REGION (env : ProcessEnv) : string :=
  match NEXT_PUBLIC_DEFAULT_REGION env with
  | Some r => if Js.truthy r then r else "dk"
  | None => "dk"
  end.

Record NextUrl : Type :=
  { pathname : string;
    search : string;
    origin : string }.

(** [nextUrl.href]; a fragment never reaches the server. *)
Definition href (u : NextUrl) : string :=
  origin u ++ pathname u ++ search u.

Record NextRequest : Type :=
  { nextUrl : NextUrl;
    (** [request.cf?.country] on Cloudflare Workers *)
    cf_country : option string;
    (** [request.headers.get("x-vercel-ip-country")] *)
    x_vercel_ip_country : option string;
    (** value of [request.cookies.get("_medusa_cache_id")] *)
    cookie_medusa_cache_id : option string }.

Record ResponseCookie : Type :=
  { cookie_name : string;
    cookie_value : string;
    cookie_maxAge : Z }.

(** [Redirect url status] holds the [url] handed to
    [NextResponse.redirect], as the handler wrote it; the Location the
    client receives is its serialisation (see [Location] below). *)
Inductive ResponseKind : Type :=
| Next
| Redirect (url : string) (status : Z).

(** A [NextResponse]: what it does, and the cookies set on it. *)
Record NextResponse : Type :=
  { kind : ResponseKind;
    cookies : list ResponseCookie }.

Definition NextResponse_next : NextResponse :=
  {| kind := Next; cookies := [] |}.

(** [NextResponse.redirect(url, status)], with [url] as the handler wrote
    it. *)
Definition NextResponse_redirect (url : string) (status : Z) : NextResponse :=
  {| kind := Redirect url status; cookies := [] |}.

(** [response.cookies.set(name, value, { maxAge })] *)
Definition cookies_set (r : NextResponse) (name value : string) (maxAge : Z)
  : NextResponse :=
  {| kind := kind r;
     cookies := cookies r ++
       [{| cookie_name := name; cookie_value := value;
           cookie_maxAge := maxAge |}] |}.

Definition is_redirect (r : NextResponse) : bool :=
  match kind r with
  | Redirect _ _ => true
  | Next => false
  end.

(** ** The region directory cache *)

Record RegionMapCache : Type :=
  { regionMap : JsMap.t StoreRegion;
    regionMapUpdated : Z }.

(** The request handed to [fetch]. *)
Record FetchCall : Type :=
  { fetch_url : string;
    fetch_api_key : option string;
    fetch_revalidate : Z;
    fetch_tags : list string }.

(** The body of a response, as [await response.json()] and the destructuring
    [const { regions } = json] see it: not JSON at all, the JSON value
    [null], or a JSON value whose [regions] member is absent or holds regions
    of the declared [HttpTypes.StoreRegion] shape. *)
Inductive ResponseBody : Type :=
| NotJson
| JsonNull
| JsonObject (regions : option (list StoreRegion)).

(** A response the backend gives: [response.ok], [response.status] and its
    body. *)
Record FetchResponse : Type :=
  { ok : bool;
    status : Z;
    body : ResponseBody }.

(** How the awaited [fetch] settles: it rejects (the backend cannot be
    reached) or resolves to a response. *)
Inductive FetchOutcome : Type :=
| FetchRejects
| FetchResolves (response : FetchResponse).

(** What [getRegionMap] fails with: its two [throw] statements, the
    rejection of [await fetch(...)], the rejection of
    [await response.json()], and the [TypeError] of destructuring [null]. *)
Inductive MiddlewareError : Type :=
| ErrorFetchingRegions
| BackendReturned (status : Z)
| FetchFailed
| BodyNotJson
| CannotDestructure.

Inductive Completion (A : Type) : Type :=
| Returned (a : A)
| Thrown (e : MiddlewareError).

Arguments Returned {A} a.
Arguments Thrown {A} e.

(** What one run of [getRegionMap] leaves behind: its completion, the cache
    object afterwards and the [fetch] calls it made. *)
Record Run (A : Type) : Type :=
  { completion : Completion A;
    cache_after : RegionMapCache;
    fetched : list FetchCall }.

(** The outside world of one invocation: how the awaited [fetch] settles
    for a call (rejection, or the response of the backend), and the two
    readings of [Date.now()] (before and after the awaited fetch). *)
Record World : Type :=
  { fetch : FetchCall -> FetchOutcome;
    now : Z;
    now_after_fetch : Z }.

(** The inner [region.countries?.forEach(c => map.set(c.iso_2 ?? "", region))]. *)
Definition set_countries (m : JsMap.t StoreRegion) (region : StoreRegion)
  : JsMap.t StoreRegion :=
  match countries region with
  | Some cs =>
      fold_left
        (fun acc c =>
           JsMap.set acc (match iso_2 c with Some k => k | None => "" end)
                     region)
        cs m
  | None => m
  end.

(** The outer [regions.forEach(...)]. *)
Definition set_regions (m : JsMap.t StoreRegion) (rs : list StoreRegion)
  : JsMap.t StoreRegion :=
  fold_left set_countries rs m.

(** The refresh condition of lines 22-25. *)
Definition needs_refresh (cache : RegionMapCache) (t : Z) : bool :=
  negb (Js.truthy_opt (JsMap.first_key (regionMap cache)))
  || (regionMapUpdated cache <? t - 3600 * 1000)%Z.

(** The arguments of the [fetch] of lines 27-37. *)
Definition regions_request (env : ProcessEnv) (cacheId : string) : FetchCall :=
  {| fetch_url :=
       match BACKEND_URL env with Some u => u | None => "" end
       ++ "/store/regions";
     fetch_api_key := PUBLISHABLE_API_KEY env;
     fetch_revalidate := 3600;
     fetch_tags := ["regions-" ++ cacheId] |}.

Definition getRegionMap (env : ProcessEnv) (w : World)
    (cache : RegionMapCache) (cacheId : string)
  : Run (JsMap.t StoreRegion) :=
  if negb (Js.truthy_opt (BACKEND_URL env)) then
    {| completion := Thrown ErrorFetchingRegions;
       cache_after := cache; fetched := [] |}
  else if needs_refresh cache (now w) then
    let call := regions_request env cacheId in
    match fetch w call with
    | FetchRejects =>
        {| completion := Thrown FetchFailed;
           cache_after := cache; fetched := [call] |}
    | FetchResolves response =>
        if negb (ok response) then
          {| completion := Thrown (BackendReturned (status response));
             cache_after := cache; fetched := [call] |}
        else
          match body response with
          | NotJson =>
              {| completion := Thrown BodyNotJson;
                 cache_after := cache; fetched := [call] |}
          | JsonNull =>
              {| completion := Thrown CannotDestructure;
                 cache_after := cache; fetched := [call] |}
          | JsonObject None | JsonObject (Some []) =>
              {| completion := Returned JsMap.empty;
                 cache_after := cache; fetched := [call] |}
          | JsonObject (Some rs) =>
              let m := set_regions (regionMap cache) rs in
              {| completion := Returned m;
                 cache_after :=
                   {| regionMap := m;
                      regionMapUpdated := now_after_fetch w |};
                 fetched := [call] |}
          end
    end
  else
    {| completion := Returned (regionMap cache);
       cache_after := cache; fetched := [] |}.

(** ** Country-code resolution *)

(** [c && regionMap.has(c)] for a candidate that may be [undefined]. *)
Definition known {V : Type} (regionMap : JsMap.t V) (c : option string)
  : bool :=
  match c with
  | Some s => Js.truthy s && JsMap.has regionMap s
  | None => false
  end.

(** [request.nextUrl.pathname.split("/")[1]?.toLowerCase()] *)
Definition url_segment (request : NextRequest) : option string :=
  option_map Js.toLowerCase
    (nth_error (Js.split "/" (pathname (nextUrl request))) 1).

Definition getCountryCode {V : Type} (env : ProcessEnv)
    (request : NextRequest) (regionMap : JsMap.t V) : option string :=
  let urlCountryCode := url_segment request in
  let cloudflareCountryCode :=
    option_map Js.toLowerCase (cf_country request) in
  let vercelCountryCode :=
    option_map Js.toLowerCase (x_vercel_ip_country request) in
  if known regionMap urlCountryCode then urlCountryCode
  else if known regionMap cloudflareCountryCode then cloudflareCountryCode
  else if known regionMap vercelCountryCode then vercelCountryCode
  else if JsMap.has regionMap (DEFAULT_REGION env) then
    Some (DEFAULT_REGION env)
  else if Js.truthy_opt (JsMap.first_key regionMap) then
    JsMap.first_key regionMap
  else None.

(** ** Pieces shared by both renditions of [middleware] *)

(** [cacheIdCookie?.value || crypto.randomUUID()] *)
Definition cacheId_of (request : NextRequest) (randomUUID : string) : string :=
  match cookie_medusa_cache_id request with
  | Some v => if Js.truthy v then v else randomUUID
  | None => randomUUID
  end.

(** [request.nextUrl.pathname === "/" ? "" : request.nextUrl.pathname] *)
Definition redirectPath (request : NextRequest) : string :=
  if pathname (nextUrl request) =? "/" then ""
  else pathname (nextUrl request).

(** [request.nextUrl.search || ""] *)
Definition queryString (request : NextRequest) : string :=
  if Js.truthy (search (nextUrl request)) then search (nextUrl request)
  else "".

(** [`${request.nextUrl.origin}/${code}${redirectPath}${queryString}`] *)
Definition prefixed_url (request : NextRequest) (code : string) : string :=
  origin (nextUrl request) ++ "/" ++ code ++ redirectPath request
  ++ queryString request.

(** [response.cookies.set("_medusa_cache_id", cacheId, { maxAge: 60 * 60 * 24 })] *)
Definition set_cache_id (r : NextResponse) (cacheId : string) : NextResponse :=
  cookies_set r "_medusa_cache_id" cacheId (60 * 60 * 24).

(** Runs [getRegionMap] and hands its map to the rest of the handler. *)
Definition with_region_map (env : ProcessEnv) (w : World)
    (cache : RegionMapCache) (cacheId : string)
    (k : JsMap.t StoreRegion -> NextResponse) : Run NextResponse :=
  let r := getRegionMap env w cache cacheId in
  {| completion :=
       match completion r with
       | Returned m => Returned (k m)
       | Thrown e => Thrown e
       end;
     cache_after := cache_after r;
     fetched := fetched r |}.

(** ** [middleware], lines 248-337 *)
Module Staged.

(** The [return] statement a run leaves through. *)
Inductive Branch : Type :=
| NoRegionsAlreadyFallback   (* line 281 *)
| NoRegionsRedirect          (* line 286 *)
| CountryInUrlCookieSet      (* line 291 *)
| CountryInUrlNewCookie      (* line 301 *)
| StaticAsset                (* line 306 *)
| RedirectToCountry          (* line 313 *)
| FallbackAlreadyInUrl       (* line 328 *)
| FallbackRedirect           (* line 333 *)
| DefaultResponse.           (* line 336 *)

(** [countryCode && pathname.split("/")[1]?.toLowerCase() ===
    countryCode.toLowerCase()], as a truth value. *)
Definition urlHasCountryCode (request : NextRequest)
    (countryCode : option string) : bool :=
  match countryCode with
  | Some c =>
      Js.truthy c
      && Js.strict_eq (url_segment request) (Some (Js.toLowerCase c))
  | None => false
  end.

(** [DEFAULT_REGION || "dk"] *)
Definition fallbackCountry (env : ProcessEnv) : string :=
  if Js.truthy (DEFAULT_REGION env) then DEFAULT_REGION env else "dk".

(** [pathname.split("/").filter(Boolean)[0]?.toLowerCase()] *)
Definition first_path_segment (request : NextRequest) : option string :=
  option_map Js.toLowerCase
    (nth_error
       (Js.filter_Boolean (Js.split "/" (pathname (nextUrl request)))) 0).

Definition urlAlreadyHasFallback (env : ProcessEnv) (request : NextRequest)
  : bool :=
  Js.strict_eq (first_path_segment request)
               (Some (Js.toLowerCase (fallbackCountry env))).

(** The handler from line 259 on, for the map [getRegionMap] returned. *)
Definition respond {V : Type} (env : ProcessEnv) (request : NextRequest)
    (regionMap : JsMap.t V) (cacheId : string) : Branch * NextResponse :=
  let response := NextResponse_redirect (href (nextUrl request)) 307 in
  let cacheIdCookie := cookie_medusa_cache_id request in
  let countryCode := getCountryCode env request regionMap in
  let urlHasCountryCode := urlHasCountryCode request countryCode in
  let fallbackCountry := fallbackCountry env in
  if (JsMap.size regionMap =? 0)%nat then
    if urlAlreadyHasFallback env request then
      (NoRegionsAlreadyFallback, NextResponse_next)
    else
      (NoRegionsRedirect,
       NextResponse_redirect (prefixed_url request fallbackCountry) 307)
  else if urlHasCountryCode
          && match cacheIdCookie with Some _ => true | None => false end
  then (CountryInUrlCookieSet, NextResponse_next)
  else if urlHasCountryCode
          && negb match cacheIdCookie with Some _ => true | None => false end
  then (CountryInUrlNewCookie, set_cache_id NextResponse_next cacheId)
  else if Js.includes "." (pathname (nextUrl request)) then
    (StaticAsset, NextResponse_next)
  else if negb urlHasCountryCode && Js.truthy_opt countryCode then
    (RedirectToCountry,
     NextResponse_redirect
       (prefixed_url request
          (match countryCode with Some c => c | None => "" end)) 307)
  else if negb urlHasCountryCode && negb (Js.truthy_opt countryCode) then
    if Js.strict_eq (first_path_segment request)
                    (Some (Js.toLowerCase fallbackCountry))
    then
      (FallbackAlreadyInUrl,
       match cacheIdCookie with
       | None => set_cache_id NextResponse_next cacheId
       | Some _ => NextResponse_next
       end)
    else
      (FallbackRedirect,
       NextResponse_redirect (prefixed_url request fallbackCountry) 307)
  else (DefaultResponse, response).

(** The Request Resolver on a fixed directory snapshot. *)
Definition resolve {V : Type} (env : ProcessEnv) (request : NextRequest)
    (regionMap : JsMap.t V) (cacheId : string) : NextResponse :=
  snd (respond env request regionMap cacheId).

Definition middleware (env : ProcessEnv) (w : World)
    (cache : RegionMapCache) (randomUUID : string) (request : NextRequest)
  : Run NextResponse :=
  let cacheId := cacheId_of request randomUUID in
  with_region_map env w cache cacheId
    (fun regionMap => resolve env request regionMap cacheId).

End Staged.

(** ** [middleware], lines 104-138 *)
Module Compact.

(** [countryCode || DEFAULT_REGION] *)
Definition country (env : ProcessEnv) (countryCode : option string)
  : string :=
  match countryCode with
  | Some c => if Js.truthy c then c else DEFAULT_REGION env
  | None => DEFAULT_REGION env
  end.

(** The handler from line 113 on, for the map [getRegionMap] returned. *)
Definition resolve {V : Type} (env : ProcessEnv) (request : NextRequest)
    (regionMap : JsMap.t V) (cacheId : string) : NextResponse :=
  let cacheIdCookie := cookie_medusa_cache_id request in
  let countryCode := getCountryCode env request regionMap in
  let country := country env countryCode in
  let firstPathSegment := url_segment request in
  let urlHasCountry :=
    Js.strict_eq firstPathSegment (Some (Js.toLowerCase country)) in
  if urlHasCountry then
    match cacheIdCookie with
    | None => set_cache_id NextResponse_next cacheId
    | Some _ => NextResponse_next
    end
  else NextResponse_redirect (prefixed_url request country) 307.

Definition middleware (env : ProcessEnv) (w : World)
    (cache : RegionMapCache) (randomUUID : string) (request : NextRequest)
  : Run NextResponse :=
  if Js.includes "." (pathname (nextUrl request)) then
    {| completion := Returned NextResponse_next;
       cache_after := cache; fetched := [] |}
  else
    let cacheId := cacheId_of request randomUUID in
    with_region_map env w cache cacheId
      (fun regionMap => resolve env request regionMap cacheId).

End Compact.

(** ** Sample data *)

Definition env_default : ProcessEnv :=
  {| NEXT_PUBLIC_MEDUSA_BACKEND_URL := Some "http://localhost:9000";
     NEXT_PUBLIC_MEDUSA_PUBLISHABLE_KEY := Some "pk_test";
     NEXT_PUBLIC_DEFAULT_REGION := None |}.

Definition region_of (rid : string) (codes : list string) : StoreRegion :=
  {| id := rid;
     countries := Some (map (fun c => {| iso_2 := Some c |}) codes) |}.

Definition reg_1 : StoreRegion := region_of "reg_1" ["us"].
Definition reg_2 : StoreRegion := region_of "reg_2" ["dk"].

Definition directory_us_dk : JsMap.t StoreRegion :=
  [("us", reg_1); ("dk", reg_2)].

Definition request_to (path query : string) (cookie : option string)
  : NextRequest :=
  {| nextUrl :=
       {| pathname := path; search := query;
          origin := "https://shop.example" |};
     cf_country := None;
     x_vercel_ip_country := None;
     cookie_medusa_cache_id := cookie |}.

(** A backend that answers every [fetch] with [response]. *)
Definition world_answering (response : FetchResponse) (t : Z) : World :=
  {| fetch := fun _ => FetchResolves response;
     now := t; now_after_fetch := t |}.

Definition cache_at_start : RegionMapCache :=
  {| regionMap := JsMap.empty; regionMapUpdated := 0 |}.

(** ** The vocabulary of the specification *)

(** The five candidates of the country-code precedence, in order: first path
    segment, primary and secondary geolocation hint, configured default
    region, first entry of the directory. *)
Definition candidates {V : Type} (env : ProcessEnv) (request : NextRequest)
    (regionMap : JsMap.t V) : list (option string) :=
  [ url_segment request;
    option_map Js.toLowerCase (cf_country request);
    option_map Js.toLowerCase (x_vercel_ip_country request);
    Some (DEFAULT_REGION env);
    JsMap.first_key regionMap ].

(** First match wins; [undefined] when nothing matches. *)
Fixpoint first_match (p : option string -> bool) (cs : list (option string))
  : option string :=
  match cs with
  | [] => None
  | c :: cs' => if p c then c else first_match p cs'
  end.

(** A candidate that is present in the directory. *)
Definition is_key {V : Type} (regionMap : JsMap.t V) (c : option string)
  : bool :=
  match c with
  | Some s => JsMap.has regionMap s
  | None => false
  end.

(** The precedence as the specification words it: a candidate wins as soon as
    it is a directory key (the first entry is one whenever the directory is
    non-empty). *)
Definition precedence_as_worded {V : Type} (env : ProcessEnv)
    (request : NextRequest) (regionMap : JsMap.t V) : option string :=
  first_match (is_key regionMap) (candidates env request regionMap).

(** The precedence with the non-emptiness proviso: a candidate wins when it is
    a non-empty string and a directory key. *)
Definition precedence {V : Type} (env : ProcessEnv)
    (request : NextRequest) (regionMap : JsMap.t V) : option string :=
  first_match (known regionMap) (candidates env request regionMap).

(** The path's first segment is, up to letter case, one of the directory's
    country codes. *)
Definition segment_is_code {V : Type} (request : NextRequest)
    (regionMap : JsMap.t V) : bool :=
  existsb
    (fun k => Js.strict_eq (url_segment request) (Some (Js.toLowerCase k)))
    (JsMap.keys regionMap).

(** [{origin}/{code}{path}{query}], the path left out when it is the
    root: the region-prefixed equivalent of a URL. *)
Definition region_prefixed_url (u : NextUrl) (code : string) : string :=
  origin u ++ "/" ++ code
  ++ (if pathname u =? "/" then "" else pathname u) ++ search u.

(** A plain country code: non-empty, of letters, digits, hyphens and
    underscores. *)
Definition plain_code (code : string) : bool :=
  Js.truthy code && Url.all_chars Url.plain_char code.

(** The URL of a request is in serialised form, as [request.nextUrl] has
    it. *)
Definition serialized (u : NextUrl) : bool :=
  Url.serialized_path (pathname u) && Url.serialized_search (search u).

(** The request for another path and query of the same origin, with the
    same hints and cookie. *)
Definition next_request (request : NextRequest) (path query : string)
  : NextRequest :=
  {| nextUrl :=
       {| pathname := path; search := query;
          origin := origin (nextUrl request) |};
     cf_country := cf_country request;
     x_vercel_ip_country := x_vercel_ip_country request;
     cookie_medusa_cache_id := cookie_medusa_cache_id request |}.

(** The request for the path of [request] with [code] put before it. *)
Definition prefixed_request (request : NextRequest) (code : string)
  : NextRequest :=
  next_request request
    ("/" ++ code
     ++ (if pathname (nextUrl request) =? "/" then ""
         else pathname (nextUrl request)))
    (search (nextUrl request)).

(** The Location header of a redirect to [url]: [String(new URL(url))]. *)
Definition Location (request : NextRequest) (url : string) : option string :=
  option_map (fun pq => origin (nextUrl request) ++ fst pq ++ snd pq)
             (Url.parse (origin (nextUrl request)) url).

(** The request a client sends after following a redirect to [url]: the
    pathname and search are those of the Location; origin, hints and cookie
    are the same. *)
Definition follow_redirect (request : NextRequest) (url : string)
  : option NextRequest :=
  option_map (fun pq => next_request request (fst pq) (snd pq))
             (Url.parse (origin (nextUrl request)) url).

(** An environment whose default region is a dot. *)
Definition env_dot : ProcessEnv :=
  {| NEXT_PUBLIC_MEDUSA_BACKEND_URL := Some "http://localhost:9000";
     NEXT_PUBLIC_MEDUSA_PUBLISHABLE_KEY := Some "pk_test";
     NEXT_PUBLIC_DEFAULT_REGION := Some "." |}.

(** A URL path starts with a slash. *)
Definition absolute_path (path : string) : bool :=
  match path with
  | String c _ => Ascii.eqb c "/"
  | EmptyString => false
  end.

(** The text up to the next slash. *)
Fixpoint take_segment (s : string) : string :=
  match s with
  | EmptyString => EmptyString
  | String c s' =>
      if Ascii.eqb c "/" then EmptyString else String c (take_segment s')
  end.

(** The first non-empty segment of a path, read off the path itself. *)
Fixpoint first_nonempty_segment (path : string) : option string :=
  match path with
  | EmptyString => None
  | String c path' =>
      if Ascii.eqb c "/" then first_nonempty_segment path'
      else Some (String c (take_segment path'))
  end.

(** The path is prefixed with the region [code] (letter case aside). *)
Definition has_region_prefix (code path : string) : bool :=
  match first_nonempty_segment path with
  | Some seg => Js.toLowerCase seg =? Js.toLowerCase code
  | None => false
  end.

(** The final segment of a path. *)
Definition final_segment (path : string) : string :=
  last (Js.split "/" path) "".

(** A static-asset path: a dot in the final segment. *)
Definition static_asset (path : string) : bool :=
  Js.includes "." (final_segment path).

(** The code a redirect prefixes: the resolved one, else the fallback. *)
Definition target_code {V : Type} (env : ProcessEnv) (request : NextRequest)
    (regionMap : JsMap.t V) : string :=
  match getCountryCode env request regionMap with
  | Some c => c
  | None => Staged.fallbackCountry env
  end.

(** The directory entries a region list gives rise to, in order. *)
Definition fresh_entries (rs : list StoreRegion)
  : list (string * StoreRegion) :=
  flat_map
    (fun region =>
       match countries region with
       | Some cs =>
           map (fun c =>
                  (match iso_2 c with Some k => k | None => "" end, region))
               cs
       | None => []
       end)
    rs.

(** The same request carrying another [_medusa_cache_id] cookie. *)
Definition with_cookie (request : NextRequest) (cookie : option string)
  : NextRequest :=
  {| nextUrl := nextUrl request;
     cf_country := cf_country request;
     x_vercel_ip_country := x_vercel_ip_country request;
     cookie_medusa_cache_id := cookie |}.

(** A query string as a URL carries it: empty, or led by a question mark. *)
Definition query_shaped (q : string) : bool :=
  match q with
  | EmptyString => true
  | String c _ => Ascii.eqb c "?"
  end.

(** [map.set] with the pair an entry is. *)
Definition set_entry (m : JsMap.t StoreRegion) (kv : string * StoreRegion)
  : JsMap.t StoreRegion :=
  JsMap.set m (fst kv) (snd kv).

(** A backend that cannot be reached: every [fetch] rejects. *)
Definition world_unreachable : World :=
  {| fetch := fun _ => FetchRejects; now := 0; now_after_fetch := 0 |}.

(** A stale cache holding [us], and a backend that now lists [dk] only. *)
Definition stale_cache_us : RegionMapCache :=
  {| regionMap := [("us", reg_1)]; regionMapUpdated := 0 |}.

Definition world_dk_only : World :=
  world_answering {| ok := true; status := 200; body := JsonObject (Some [reg_2]) |}
                  4000000.

(** What a response of the staged handler can be: a plain pass-through; a
    pass-through that issues the cookie, to a cookie-less request whose path
    carries the resolved code or the fallback; or a redirect that prefixes a
    non-empty code.  In each case the run left before the trailing default. *)
Inductive staged_response {V : Type} (env : ProcessEnv)
    (regionMap : JsMap.t V) (request : NextRequest) (cacheId : string)
  : Staged.Branch -> NextResponse -> Prop :=
| sr_pass (b : Staged.Branch) :
    b <> Staged.DefaultResponse ->
    staged_response env regionMap request cacheId b NextResponse_next
| sr_cookie (b : Staged.Branch) :
    b <> Staged.DefaultResponse ->
    cookie_medusa_cache_id request = None ->
    Staged.urlHasCountryCode request (getCountryCode env request regionMap)
    = true
    \/ Staged.urlAlreadyHasFallback env request = true ->
    staged_response env regionMap request cacheId b
                    (set_cache_id NextResponse_next cacheId)
| sr_redirect (b : Staged.Branch) (code : string) :
    b <> Staged.DefaultResponse ->
    Js.truthy code = true ->
    staged_response env regionMap request cacheId b
      (NextResponse_redirect (prefixed_url request code) 307).

(** ** Further vocabulary: the cache over several calls *)

(** The entry a list of [set] calls leaves for [k]: that of the last call
    on [k]. *)
Definition latest_entry (es : list (string * StoreRegion)) (k : string)
  : option StoreRegion :=
  option_map snd (find (fun kv => fst kv =? k) (rev es)).

(** A region one of whose countries carries no [iso_2]. *)
Definition region_without_iso : StoreRegion :=
  {| id := "reg_x"; countries := Some [{| iso_2 := None |}] |}.

(** An environment without [NEXT_PUBLIC_MEDUSA_BACKEND_URL]. *)
Definition env_unconfigured : ProcessEnv :=
  {| NEXT_PUBLIC_MEDUSA_BACKEND_URL := None;
     NEXT_PUBLIC_MEDUSA_PUBLISHABLE_KEY := Some "pk_test";
     NEXT_PUBLIC_DEFAULT_REGION := None |}.

(** The cookie the handlers issue. *)
Definition cache_id_cookie (value : string) : ResponseCookie :=
  {| cookie_name := "_medusa_cache_id"; cookie_value := value;
     cookie_maxAge := 86400 |}.

(** ** Facts about the string primitives *)
Section StringFacts.

Lemma lower_ascii_idem (c : ascii) :
  Js.lower_ascii (Js.lower_ascii c) = Js.lower_ascii c.
Proof. destruct c as [[] [] [] [] [] [] [] []]; reflexivity. Qed.

Lemma toLowerCase_idem (s : string) :
  Js.toLowerCase (Js.toLowerCase s) = Js.toLowerCase s.
Proof.
  induction s as [|c s IH]; simpl; [reflexivity|].
  now rewrite lower_ascii_idem, IH.
Qed.

Lemma truthy_toLowerCase (s : string) :
  Js.truthy (Js.toLowerCase s) = Js.truthy s.
Proof. destruct s; reflexivity. Qed.

Lemma truthy_true_iff (s : string) : Js.truthy s = true <-> s <> "".
Proof.
  unfold Js.truthy. rewrite negb_true_iff. split.
  - intros H E. subst s. discriminate.
  - intros H. apply String.eqb_neq. exact H.
Qed.

Lemma truthy_length (s : string) :
  Js.truthy s = true -> (0 < String.length s)%nat.
Proof. destruct s; simpl; [discriminate | lia]. Qed.

Lemma length_append (a b : string) :
  String.length (a ++ b) = (String.length a + String.length b)%nat.
Proof. induction a as [|c a IH]; simpl; [reflexivity | now rewrite IH]. Qed.

Lemma append_cancel_l (a b c : string) : a ++ b = a ++ c -> b = c.
Proof.
  induction a as [|x a IH]; simpl; intros H; [exact H|].
  injection H as H. now apply IH.
Qed.

(** The first element of [split]: the text before the first separator. *)
Lemma split_first (sep : ascii) (c rest : string) :
  Js.includes sep c = false ->
  exists segs, Js.split sep (c ++ String sep rest) = c :: segs.
Proof.
  induction c as [|x c IH]; simpl; intros H.
  - rewrite Ascii.eqb_refl. eauto.
  - apply orb_false_iff in H. destruct H as [Hx Hc].
    rewrite Hx. destruct (IH Hc) as [segs ->]. eauto.
Qed.

Lemma split_whole (sep : ascii) (c : string) :
  Js.includes sep c = false -> Js.split sep c = [c].
Proof.
  induction c as [|x c IH]; simpl; intros H; [reflexivity|].
  apply orb_false_iff in H. destruct H as [Hx Hc].
  now rewrite Hx, (IH Hc).
Qed.

Lemma strict_eq_Some (a b : string) :
  Js.strict_eq (Some a) (Some b) = true <-> a = b.
Proof. simpl. apply String.eqb_eq. Qed.

End StringFacts.

(** ** Facts about the ordered map *)
Section MapFacts.

Context {V : Type}.

Lemma has_In_keys (m : JsMap.t V) (k : string) :
  JsMap.has m k = true <-> In k (JsMap.keys m).
Proof.
  unfold JsMap.has, JsMap.keys. rewrite existsb_exists, in_map_iff.
  split; intros [kv [H1 H2]]; exists kv.
  - apply String.eqb_eq in H2. tauto.
  - rewrite H1, String.eqb_refl. tauto.
Qed.

Lemma has_get (m : JsMap.t V) (k : string) :
  JsMap.has m k = match JsMap.get m k with Some _ => true | None => false end.
Proof.
  induction m as [|[k' v] m IH]; simpl; [reflexivity|].
  destruct (k' =? k); simpl; [reflexivity | exact IH].
Qed.

Lemma first_key_has (m : JsMap.t V) (k : string) :
  JsMap.first_key m = Some k -> JsMap.has m k = true.
Proof.
  destruct m as [|[k' v] m]; simpl; intros H; [discriminate|].
  injection H as ->. now rewrite String.eqb_refl.
Qed.

Lemma get_set (m : JsMap.t V) (k k' : string) (v : V) :
  JsMap.get (JsMap.set m k v) k'
  = if k =? k' then Some v else JsMap.get m k'.
Proof.
  induction m as [|[k0 v0] m IH]; simpl.
  - reflexivity.
  - destruct (k0 =? k) eqn:E0; simpl.
    + apply String.eqb_eq in E0. subst k0.
      destruct (k =? k'); reflexivity.
    + rewrite IH. destruct (k0 =? k') eqn:E1; [|reflexivity].
      apply String.eqb_eq in E1. subst k0.
      now rewrite String.eqb_sym, E0.
Qed.

Lemma size_zero (m : JsMap.t V) :
  (JsMap.size m =? 0)%nat = true <-> m = [].
Proof.
  destruct m; simpl; split; intros H; try reflexivity; discriminate.
Qed.

End MapFacts.

(** ** Facts about [getCountryCode] *)
Section CountryCodeFacts.

Context {V : Type}.
Variable env : ProcessEnv.

Lemma DEFAULT_REGION_truthy : Js.truthy (DEFAULT_REGION env) = true.
Proof.
  unfold DEFAULT_REGION.
  destruct (NEXT_PUBLIC_DEFAULT_REGION env) as [r|]; [|reflexivity].
  destruct (Js.truthy r) eqn:E; [exact E | reflexivity].
Qed.

Lemma known_spec (m : JsMap.t V) (c : option string) :
  known m c = true ->
  exists s, c = Some s /\ Js.truthy s = true /\ JsMap.has m s = true.
Proof.
  destruct c as [s|]; simpl; [|discriminate].
  intros H. apply andb_true_iff in H. eauto.
Qed.

(** Whatever [getCountryCode] returns is a non-empty key of the map. *)
Lemma getCountryCode_key (request : NextRequest) (m : JsMap.t V)
    (c : string) :
  getCountryCode env request m = Some c ->
  Js.truthy c = true /\ JsMap.has m c = true.
Proof.
  unfold getCountryCode.
  repeat match goal with
  | |- context [if known m ?x then _ else _] =>
      let E := fresh "E" in
      destruct (known m x) eqn:E;
      [ intros H; apply known_spec in E;
        destruct E as [s [Es [Et Eh]]]; rewrite Es in H;
        injection H as <-; split; assumption | ]
  end.
  destruct (JsMap.has m (DEFAULT_REGION env)) eqn:Ed.
  - intros H. injection H as <-. split; [apply DEFAULT_REGION_truthy | exact Ed].
  - destruct (Js.truthy_opt (JsMap.first_key m)) eqn:Ef; [|discriminate].
    intros H. rewrite H in Ef. split; [exact Ef | now apply first_key_has].
Qed.

Lemma getCountryCode_empty (request : NextRequest) :
  getCountryCode env request (@nil (string * V)) = None.
Proof.
  unfold getCountryCode, known. simpl.
  repeat match goal with
  | |- context [match ?x with Some _ => _ | None => _ end] =>
      destruct x; simpl; rewrite ?andb_false_r
  end; reflexivity.
Qed.

End CountryCodeFacts.

(** ** Resolution precedence *)
Section Precedence.

Context {V : Type}.
Variable env : ProcessEnv.
Variable request : NextRequest.
Variable regionMap : JsMap.t V.

Lemma first_match_ext (p q : option string -> bool) (cs : list (option string)) :
  (forall c, In c cs -> p c = q c) -> first_match p cs = first_match q cs.
Proof.
  induction cs as [|c cs IH]; simpl; intros H; [reflexivity|].
  rewrite (H c) by now left.
  destruct (q c); [reflexivity|]. apply IH. intros c' Hc'. apply H. now right.
Qed.

Lemma known_DEFAULT_REGION :
  known regionMap (Some (DEFAULT_REGION env))
  = JsMap.has regionMap (DEFAULT_REGION env).
Proof. simpl. now rewrite DEFAULT_REGION_truthy. Qed.

Lemma known_first_key :
  known regionMap (JsMap.first_key regionMap)
  = Js.truthy_opt (JsMap.first_key regionMap).
Proof.
  destruct (JsMap.first_key regionMap) as [k|] eqn:E; simpl; [|reflexivity].
  now rewrite (first_key_has _ E), andb_true_r.
Qed.

(** [getCountryCode] is a first-match search through the candidates. *)
Lemma getCountryCode_first_match :
  getCountryCode env request regionMap
  = first_match (known regionMap) (candidates env request regionMap).
Proof.
  unfold getCountryCode, candidates. cbn [first_match].
  rewrite known_DEFAULT_REGION, known_first_key.
  repeat match goal with
  | |- context [if ?b then _ else _] => destruct b; try reflexivity
  end.
Qed.

(** The path only enters through the first candidate. *)
Lemma getCountryCode_by_segment :
  getCountryCode env request regionMap
  = if known regionMap (url_segment request) then url_segment request
    else first_match (known regionMap)
           (tl (candidates env request regionMap)).
Proof. rewrite getCountryCode_first_match. reflexivity. Qed.

Lemma known_is_key (c : option string) :
  JsMap.has regionMap "" = false -> known regionMap c = is_key regionMap c.
Proof.
  intros H. destruct c as [s|]; simpl; [|reflexivity].
  destruct (Js.truthy s) eqn:E; simpl; [reflexivity|].
  unfold Js.truthy in E. apply negb_false_iff, String.eqb_eq in E.
  subst s. now rewrite H.
Qed.

(** Without an empty-string key the wording of the specification is exact. *)
Lemma getCountryCode_as_worded :
  JsMap.has regionMap "" = false ->
  getCountryCode env request regionMap
  = precedence_as_worded env request regionMap.
Proof.
  intros H. rewrite getCountryCode_first_match.
  apply first_match_ext. intros c _. now apply known_is_key.
Qed.

End Precedence.

(** C2 (as amended). For every request and directory snapshot the resolved
    country code is the first of the five candidates -- lower-cased first path
    segment, lower-cased primary hint, lower-cased secondary hint, configured
    default region, first key of the directory -- that is a non-empty string
    and a key of the directory, and [undefined] when there is none. *)
Theorem C2_country_code_precedence :
  forall (V : Type) (env : ProcessEnv) (request : NextRequest)
         (regionMap : JsMap.t V),
    getCountryCode env request regionMap = precedence env request regionMap.
Proof.
  intros V env request regionMap. unfold precedence.
  apply getCountryCode_first_match.
Qed.

(** C2, counterexample.  A region whose country lacks [iso_2] leaves the
    directory [{"" -> region}]; it is non-empty, so the precedence as worded
    yields its first entry, yet [getCountryCode] yields [undefined]. *)
Lemma C2_empty_key_counterexample :
  let region := {| id := "reg_x"; countries := Some [{| iso_2 := None |}] |} in
  let directory := set_regions JsMap.empty [region] in
  directory = [("", region)]
  /\ precedence_as_worded env_default (request_to "/x" "" None) directory
     = Some ""
  /\ getCountryCode env_default (request_to "/x" "" None) directory = None.
Proof. repeat split. Qed.

(** ** The staged handler, branch by branch *)
Section StagedBranches.

Context {V : Type}.
Variable env : ProcessEnv.
Variable regionMap : JsMap.t V.

Lemma queryString_search (request : NextRequest) :
  queryString request = search (nextUrl request).
Proof.
  unfold queryString, Js.truthy.
  destruct (search (nextUrl request) =? "") eqn:E; simpl; [|reflexivity].
  apply String.eqb_eq in E. now rewrite E.
Qed.

(** The URL the handlers build is the region-prefixed equivalent of the
    request URL. *)
Lemma prefixed_url_region_prefixed (request : NextRequest) (code : string) :
  prefixed_url request code = region_prefixed_url (nextUrl request) code.
Proof.
  unfold prefixed_url, region_prefixed_url, redirectPath.
  now rewrite queryString_search.
Qed.

Lemma fallbackCountry_DEFAULT_REGION :
  Staged.fallbackCountry env = DEFAULT_REGION env.
Proof.
  unfold Staged.fallbackCountry. now rewrite DEFAULT_REGION_truthy.
Qed.

Lemma has_nonempty (k : string) :
  JsMap.has regionMap k = true -> (JsMap.size regionMap =? 0)%nat = false.
Proof. destruct regionMap; simpl; [discriminate | reflexivity]. Qed.

Lemma resolved_nonempty (request : NextRequest) (c : string) :
  getCountryCode env request regionMap = Some c ->
  (JsMap.size regionMap =? 0)%nat = false.
Proof.
  intros H. apply getCountryCode_key in H. destruct H as [_ H].
  now apply has_nonempty with c.
Qed.

(** A resolved code that the path does not carry: rule 5 unless the path is
    a static asset. *)
Lemma respond_redirect_to_country (request : NextRequest) (cacheId c : string) :
  getCountryCode env request regionMap = Some c ->
  Staged.urlHasCountryCode request (Some c) = false ->
  Js.includes "." (pathname (nextUrl request)) = false ->
  Staged.respond env request regionMap cacheId
  = (Staged.RedirectToCountry,
     NextResponse_redirect (prefixed_url request c) 307).
Proof.
  intros Hc Hu Hs. unfold Staged.respond.
  rewrite (resolved_nonempty _ Hc), Hc, Hu, Hs. simpl.
  destruct (getCountryCode_key _ _ _ Hc) as [-> _]. reflexivity.
Qed.

(** A resolved code that the path carries: rules 2 and 3. *)
Lemma respond_country_in_url (request : NextRequest) (cacheId c : string) :
  getCountryCode env request regionMap = Some c ->
  Staged.urlHasCountryCode request (Some c) = true ->
  Staged.respond env request regionMap cacheId
  = match cookie_medusa_cache_id request with
    | Some _ => (Staged.CountryInUrlCookieSet, NextResponse_next)
    | None =>
        (Staged.CountryInUrlNewCookie, set_cache_id NextResponse_next cacheId)
    end.
Proof.
  intros Hc Hu. unfold Staged.respond.
  rewrite (resolved_nonempty _ Hc), Hc, Hu.
  destruct (cookie_medusa_cache_id request); reflexivity.
Qed.

(** A segment that is no country code is not the resolved one either. *)
Lemma segment_is_code_false (request : NextRequest) (c : string) :
  segment_is_code request regionMap = false ->
  JsMap.has regionMap c = true ->
  Staged.urlHasCountryCode request (Some c) = false.
Proof.
  unfold segment_is_code. intros Hn Hk. simpl.
  destruct (Js.strict_eq (url_segment request) (Some (Js.toLowerCase c)))
    eqn:E; [|apply andb_false_r].
  exfalso. apply has_In_keys in Hk.
  assert (Ht : existsb
                 (fun k => Js.strict_eq (url_segment request)
                                        (Some (Js.toLowerCase k)))
                 (JsMap.keys regionMap) = true).
  { apply existsb_exists. exists c. split; assumption. }
  congruence.
Qed.

Lemma segment_is_code_not_known (request : NextRequest) :
  segment_is_code request regionMap = false ->
  known regionMap (url_segment request) = false.
Proof.
  intros Hn. destruct (known regionMap (url_segment request)) eqn:E;
    [|reflexivity].
  apply known_spec in E. destruct E as [s [Es [Ht Hh]]].
  pose proof (segment_is_code_false request s Hn Hh) as Hu.
  simpl in Hu. rewrite Ht, Es in Hu. unfold url_segment in Es.
  destruct (nth_error (Js.split "/" (pathname (nextUrl request))) 1)
    as [seg|]; [|discriminate].
  simpl in Es. injection Es as <-.
  rewrite toLowerCase_idem in Hu. simpl in Hu.
  rewrite String.eqb_refl in Hu. discriminate.
Qed.

End StagedBranches.
(** ** The region-prefixed request *)
Section FollowRedirect.

Context {V : Type}.
Variable env : ProcessEnv.
Variable regionMap : JsMap.t V.
Variable request : NextRequest.
Variable c : string.

Lemma append_empty (a : string) : a ++ "" = a.
Proof. induction a as [|x a IH]; simpl; [reflexivity | now rewrite IH]. Qed.

Lemma absolute_path_inv (path : string) :
  absolute_path path = true -> exists rest, path = String "/" rest.
Proof.
  destruct path as [|x rest]; simpl; [discriminate|].
  intros H. apply Ascii.eqb_eq in H. subst x. eauto.
Qed.

(** The region-prefixed path carries the code as its first segment. *)
Lemma url_segment_prefixed_request :
  absolute_path (pathname (nextUrl request)) = true ->
  Js.includes "/" c = false ->
  url_segment (prefixed_request request c) = Some (Js.toLowerCase c).
Proof.
  intros Ha Hc. unfold url_segment, prefixed_request. simpl.
  destruct (pathname (nextUrl request) =? "/").
  - rewrite append_empty, (split_whole _ _ Hc). reflexivity.
  - destruct (absolute_path_inv _ Ha) as [rest ->].
    destruct (split_first "/" c rest Hc) as [segs ->]. reflexivity.
Qed.

(** Resolving again settles on a code the region-prefixed path carries. *)
Lemma prefixed_request_settles :
  getCountryCode env request regionMap = Some c ->
  known regionMap (url_segment request) = false ->
  absolute_path (pathname (nextUrl request)) = true ->
  Js.includes "/" c = false ->
  exists c',
    getCountryCode env (prefixed_request request c) regionMap = Some c'
    /\ Staged.urlHasCountryCode (prefixed_request request c) (Some c') = true.
Proof.
  intros Hc Hk Ha Hs.
  pose proof (getCountryCode_key _ _ _ Hc) as [Ht Hh].
  pose proof (url_segment_prefixed_request Ha Hs) as Hseg.
  rewrite getCountryCode_by_segment in Hc. rewrite Hk in Hc.
  rewrite (getCountryCode_by_segment env (prefixed_request request c)).
  rewrite Hseg.
  destruct (known regionMap (Some (Js.toLowerCase c))) eqn:E.
  - exists (Js.toLowerCase c). split; [reflexivity|].
    unfold Staged.urlHasCountryCode.
    rewrite Hseg, toLowerCase_idem, truthy_toLowerCase, Ht. simpl.
    apply String.eqb_refl.
  - exists c. split; [exact Hc|].
    unfold Staged.urlHasCountryCode. rewrite Hseg, Ht. simpl.
    apply String.eqb_refl.
Qed.

End FollowRedirect.

(** ** Path segments *)
Section Segments.

Lemma split_take_segment (s : string) :
  exists segs, Js.split "/" s = take_segment s :: segs.
Proof.
  induction s as [|x s [segs IH]]; simpl; [eauto|].
  destruct (Ascii.eqb x "/"); [eauto|]. rewrite IH. eauto.
Qed.

(** [split("/").filter(Boolean)[0]] is the first non-empty segment. *)
Lemma filter_Boolean_first (s : string) :
  nth_error (Js.filter_Boolean (Js.split "/" s)) 0 = first_nonempty_segment s.
Proof.
  induction s as [|x s IH]; simpl; [reflexivity|].
  destruct (Ascii.eqb x "/"); simpl; [exact IH|].
  destruct (split_take_segment s) as [segs ->]. reflexivity.
Qed.

Lemma urlAlreadyHasFallback_prefix (env : ProcessEnv) (request : NextRequest) :
  Staged.urlAlreadyHasFallback env request
  = has_region_prefix (Staged.fallbackCountry env)
                      (pathname (nextUrl request)).
Proof.
  unfold Staged.urlAlreadyHasFallback, Staged.first_path_segment,
    has_region_prefix.
  rewrite filter_Boolean_first.
  destruct (first_nonempty_segment (pathname (nextUrl request)));
    reflexivity.
Qed.

(** A dot in the final segment is a dot in the path. *)
Lemma final_segment_includes (c : ascii) (s : string) :
  Js.includes c (last (Js.split "/" s) "") = true -> Js.includes c s = true.
Proof.
  induction s as [|x s IH]; simpl; [discriminate|].
  destruct (Ascii.eqb x "/") eqn:Ex.
  - destruct (split_take_segment s) as [segs E]. rewrite E in *.
    intros H. rewrite (IH H). apply orb_true_r.
  - destruct (split_take_segment s) as [segs E]. rewrite E in *.
    destruct segs as [|seg segs]; simpl.
    + intros H. apply orb_true_iff in H. destruct H as [H|H].
      * now rewrite H.
      * rewrite (IH H). apply orb_true_r.
    + intros H. rewrite (IH H). apply orb_true_r.
Qed.

Lemma static_asset_includes (path : string) :
  static_asset path = true -> Js.includes "." path = true.
Proof. apply final_segment_includes. Qed.

End Segments.

(** C3. On the empty directory the resolver passes a path through when its
    first non-empty segment is the fallback region code (letter case aside)
    and otherwise answers with a 307 redirect to
    [{origin}/{fallback}{pathname}{search}], the pathname left out when it is
    the root: the fallback-prefixed path, query string kept. *)
Theorem C3_empty_directory :
  forall (V : Type) (env : ProcessEnv) (request : NextRequest)
         (cacheId : string),
    Staged.resolve env request (@JsMap.empty V) cacheId
    = if has_region_prefix (Staged.fallbackCountry env)
                           (pathname (nextUrl request))
      then NextResponse_next
      else NextResponse_redirect
             (origin (nextUrl request) ++ "/" ++ Staged.fallbackCountry env
              ++ (if pathname (nextUrl request) =? "/" then ""
                  else pathname (nextUrl request))
              ++ search (nextUrl request)) 307.
Proof.
  intros V env request cacheId.
  unfold Staged.resolve, Staged.respond. simpl.
  rewrite urlAlreadyHasFallback_prefix.
  destruct (has_region_prefix _ _); [reflexivity|].
  now rewrite prefixed_url_region_prefixed.
Qed.

(** Rule 1 end to end: a backend without regions. *)
Lemma middleware_without_regions (env : ProcessEnv) (w : World)
    (cache : RegionMapCache) (randomUUID : string) (request : NextRequest) :
  completion (getRegionMap env w cache (cacheId_of request randomUUID))
  = Returned JsMap.empty ->
  completion (Staged.middleware env w cache randomUUID request)
  = Returned
      (if has_region_prefix (Staged.fallbackCountry env)
                            (pathname (nextUrl request))
       then NextResponse_next
       else NextResponse_redirect
              (prefixed_url request (Staged.fallbackCountry env)) 307).
Proof.
  intros H. unfold Staged.middleware, with_region_map. simpl. rewrite H.
  f_equal. unfold Staged.resolve, Staged.respond. simpl.
  rewrite urlAlreadyHasFallback_prefix.
  destruct (has_region_prefix _ _); reflexivity.
Qed.

(** ** Static assets *)

Lemma staged_static_pass_through {V : Type} (env : ProcessEnv)
    (request : NextRequest) (regionMap : JsMap.t V) (cacheId : string) :
  Js.includes "." (pathname (nextUrl request)) = true ->
  regionMap <> [] ->
  kind (Staged.resolve env request regionMap cacheId) = Next.
Proof.
  intros Hs Hne. unfold Staged.resolve, Staged.respond.
  destruct (JsMap.size regionMap =? 0)%nat eqn:Ez.
  - apply size_zero in Ez. contradiction.
  - rewrite Hs.
    destruct (Staged.urlHasCountryCode request _);
      destruct (cookie_medusa_cache_id request); reflexivity.
Qed.

(** C4 (as amended). For a static-asset path (a dot in its final segment) the
    staged handler passes through under every non-empty directory snapshot,
    whatever the hints and the cookie; the compact handler passes through
    before it consults the directory at all, so under every snapshot, and
    without a fetch.  (Under the empty directory the staged handler applies
    rule 1 first.) *)
Theorem C4_static_asset_pass_through :
  forall (env : ProcessEnv) (w : World) (cache : RegionMapCache)
         (randomUUID cacheId : string) (request : NextRequest)
         (regionMap : JsMap.t StoreRegion),
    static_asset (pathname (nextUrl request)) = true ->
    (regionMap <> [] ->
     kind (Staged.resolve env request regionMap cacheId) = Next)
    /\ Compact.middleware env w cache randomUUID request
       = {| completion := Returned NextResponse_next;
            cache_after := cache; fetched := [] |}.
Proof.
  intros env w cache randomUUID cacheId request regionMap Hs.
  apply static_asset_includes in Hs. split.
  - now apply staged_static_pass_through.
  - unfold Compact.middleware. now rewrite Hs.
Qed.

(** C4, witness: [/logo.png] under the directory [{us, dk}]. *)
Lemma C4_static_asset_pass_through_witness :
  static_asset "/logo.png" = true
  /\ kind (Staged.resolve env_default (request_to "/logo.png" "" None)
                          directory_us_dk "uuid") = Next
  /\ completion
       (Compact.middleware env_default
          (world_answering {| ok := true; status := 200; body := JsonObject None |} 0)
          cache_at_start "uuid" (request_to "/logo.png" "" None))
     = Returned NextResponse_next.
Proof.
  destruct (C4_static_asset_pass_through env_default
              (world_answering
                 {| ok := true; status := 200; body := JsonObject None |} 0)
              cache_at_start "uuid" "uuid"
              (request_to "/logo.png" "" None) directory_us_dk eq_refl)
    as [H1 H2].
  split; [reflexivity|]. split.
  - apply H1. discriminate.
  - rewrite H2. reflexivity.
Defined.

(** C4, counterexample: with no regions configured the staged handler
    redirects [/logo.png] to the fallback region. *)
Lemma C4_static_asset_counterexample :
  static_asset "/logo.png" = true
  /\ Staged.resolve env_default (request_to "/logo.png" "" None)
                    (@JsMap.empty StoreRegion) "uuid"
     = NextResponse_redirect "https://shop.example/dk/logo.png" 307
  /\ completion
       (Staged.middleware env_default
          (world_answering
             {| ok := true; status := 200; body := JsonObject (Some []) |} 0)
          cache_at_start "uuid" (request_to "/logo.png" "" None))
     = Returned
         (NextResponse_redirect "https://shop.example/dk/logo.png" 307).
Proof. repeat split. Qed.

(** ** The directory cache *)

(** Splits a goal or hypothesis about one call of [getRegionMap] into the
    ways the call can go. *)
Ltac getRegionMap_outcomes env w cache cacheId :=
  unfold getRegionMap in *;
  let Hb := fresh "Hb" in
  let Hn := fresh "Hn" in
  let Hf := fresh "Hf" in
  let Hok := fresh "Hok" in
  let Hbody := fresh "Hbody" in
  destruct (Js.truthy_opt (BACKEND_URL env)) eqn:Hb; simpl in *;
  [ destruct (needs_refresh cache (now w)) eqn:Hn; simpl in *;
    [ destruct (fetch w (regions_request env cacheId)) as [|?resp] eqn:Hf;
      simpl in *;
      [ | match goal with
          | Hf : _ = FetchResolves ?r |- _ =>
              destruct (ok r) eqn:Hok; simpl in *;
              [ destruct (body r) as [ | | [[|?region ?rest]|]] eqn:Hbody;
                simpl in *
              | ]
          end ]
    | ]
  | ].

Section DirectoryCache.

Variable env : ProcessEnv.
Variable w : World.
Variable cache : RegionMapCache.
Variable cacheId : string.

(** When [getRegionMap] calls [fetch], and with what. *)
Lemma getRegionMap_fetched :
  fetched (getRegionMap env w cache cacheId)
  = if Js.truthy_opt (BACKEND_URL env) && needs_refresh cache (now w)
    then [regions_request env cacheId] else [].
Proof. getRegionMap_outcomes env w cache cacheId; reflexivity. Qed.

Lemma getRegionMap_fetched_inv (call : FetchCall) :
  In call (fetched (getRegionMap env w cache cacheId)) ->
  call = regions_request env cacheId
  /\ Js.truthy_opt (BACKEND_URL env) = true
  /\ needs_refresh cache (now w) = true.
Proof.
  rewrite getRegionMap_fetched.
  destruct (Js.truthy_opt (BACKEND_URL env));
    destruct (needs_refresh cache (now w)); simpl; intros H;
    try contradiction.
  destruct H as [<-|[]]. auto.
Qed.

Lemma getRegionMap_fetched_nonempty :
  fetched (getRegionMap env w cache cacheId) <> [] ->
  Js.truthy_opt (BACKEND_URL env) = true
  /\ needs_refresh cache (now w) = true.
Proof.
  rewrite getRegionMap_fetched.
  destruct (Js.truthy_opt (BACKEND_URL env));
    destruct (needs_refresh cache (now w)); simpl; intros H;
    try (now elim H). auto.
Qed.

(** A fresh cache, a configured backend, no fetch: the cached map is
    returned as it is. *)
Lemma getRegionMap_cached :
  Js.truthy_opt (BACKEND_URL env) = true ->
  needs_refresh cache (now w) = false ->
  getRegionMap env w cache cacheId
  = {| completion := Returned (regionMap cache);
       cache_after := cache; fetched := [] |}.
Proof. intros Hb Hn. unfold getRegionMap. now rewrite Hb, Hn. Qed.

(** A successful answer that lists regions refreshes the cache. *)
Lemma getRegionMap_refreshed (response : FetchResponse)
    (rs : list StoreRegion) :
  fetched (getRegionMap env w cache cacheId) <> [] ->
  fetch w (regions_request env cacheId) = FetchResolves response ->
  ok response = true ->
  body response = JsonObject (Some rs) ->
  rs <> [] ->
  getRegionMap env w cache cacheId
  = {| completion := Returned (set_regions (regionMap cache) rs);
       cache_after :=
         {| regionMap := set_regions (regionMap cache) rs;
            regionMapUpdated := now_after_fetch w |};
       fetched := [regions_request env cacheId] |}.
Proof.
  intros Hf Hr Hok Hbody Hne.
  destruct (getRegionMap_fetched_nonempty Hf) as [Hb Hn].
  unfold getRegionMap. rewrite Hb, Hn, Hr, Hok, Hbody. simpl.
  destruct rs; [now elim Hne | reflexivity].
Qed.

(** Every other call leaves the cache object as it was. *)
Lemma getRegionMap_cache_kept :
  cache_after (getRegionMap env w cache cacheId) = cache
  \/ exists response rs,
       rs <> []
       /\ fetch w (regions_request env cacheId) = FetchResolves response
       /\ ok response = true
       /\ body response = JsonObject (Some rs)
       /\ fetched (getRegionMap env w cache cacheId) <> [].
Proof.
  getRegionMap_outcomes env w cache cacheId; try (left; reflexivity).
  right. eexists; eexists. repeat split; try eassumption; discriminate.
Qed.

End DirectoryCache.

(** C5 (as amended). [getRegionMap] throws exactly when the backend base URL
    is not configured, or it called [fetch] and the call failed: the fetch
    was rejected, the backend answered with a non-success status, or the body
    of a success answer was not JSON or was [null].  When it called [fetch]
    and the answer was a success whose body lists no regions, it returns an
    empty map. *)
Theorem C5_getRegionMap_throws_iff :
  forall (env : ProcessEnv) (w : World) (cache : RegionMapCache)
         (cacheId : string),
    let r := getRegionMap env w cache cacheId in
    ((exists e, completion r = Thrown e)
     <-> (Js.truthy_opt (BACKEND_URL env) = false
          \/ exists call,
               In call (fetched r)
               /\ (fetch w call = FetchRejects
                   \/ exists response,
                        fetch w call = FetchResolves response
                        /\ (ok response = false
                            \/ body response = NotJson
                            \/ body response = JsonNull))))
    /\ (forall call response,
          In call (fetched r) ->
          fetch w call = FetchResolves response ->
          ok response = true ->
          body response = JsonObject None
          \/ body response = JsonObject (Some []) ->
          completion r = Returned JsMap.empty).
Proof.
  intros env w cache cacheId r. split; [split|].
  - (* a throw has one of the causes *)
    intros [e He]. subst r.
    getRegionMap_outcomes env w cache cacheId; try discriminate;
      try (now left); right;
      exists (regions_request env cacheId); (split; [now left|]);
      rewrite Hf; eauto 7.
  - (* each cause makes it throw *)
    intros [Hb | [call [Hin Hbad]]]; subst r.
    + exists ErrorFetchingRegions. unfold getRegionMap. now rewrite Hb.
    + apply getRegionMap_fetched_inv in Hin. destruct Hin as [-> [Hb Hn]].
      unfold getRegionMap. rewrite Hb, Hn. simpl.
      destruct Hbad as [Hr | [response [Hr Hc]]]; rewrite Hr; simpl.
      * eauto.
      * destruct (ok response) eqn:Hok; simpl; [|eauto].
        destruct Hc as [Hc | [Hc | Hc]]; [discriminate | |];
          rewrite Hc; simpl; eauto.
  - intros call response Hin Hr Hok Hz. subst r.
    apply getRegionMap_fetched_inv in Hin. destruct Hin as [-> [Hb Hn]].
    unfold getRegionMap. rewrite Hb, Hn, Hr, Hok. simpl.
    destruct Hz as [-> | ->]; reflexivity.
Qed.

(** C5, counterexample: the backend is configured and cannot be reached; the
    awaited [fetch] rejects and [getRegionMap] fails, though no response, and
    so no non-success status, was returned. *)
Lemma C5_unreachable_backend_counterexample :
  let r := getRegionMap env_default world_unreachable cache_at_start "uuid" in
  Js.truthy_opt (BACKEND_URL env_default) = true
  /\ fetched r = [regions_request env_default "uuid"]
  /\ fetch world_unreachable (regions_request env_default "uuid")
     = FetchRejects
  /\ completion r = Thrown FetchFailed.
Proof. repeat split. Qed.

(** ** Refreshing the directory *)
Section Refresh.

Lemma fold_left_map_entry {A : Type} (f : A -> string * StoreRegion)
    (xs : list A) (m : JsMap.t StoreRegion) :
  fold_left (fun acc x => JsMap.set acc (fst (f x)) (snd (f x))) xs m
  = fold_left set_entry (map f xs) m.
Proof.
  revert m. induction xs as [|x xs IH]; intros m; simpl; [reflexivity|].
  now rewrite IH.
Qed.

(** The nested [forEach] sets the entries one after the other. *)
Lemma set_regions_entries (rs : list StoreRegion) (m : JsMap.t StoreRegion) :
  set_regions m rs = fold_left set_entry (fresh_entries rs) m.
Proof.
  unfold set_regions. revert m.
  induction rs as [|r rs IH]; intros m; simpl; [reflexivity|].
  rewrite fold_left_app, IH. f_equal.
  unfold set_countries. destruct (countries r) as [cs|]; [|reflexivity].
  apply (fold_left_map_entry
           (fun c => (match iso_2 c with Some k => k | None => "" end, r))).
Qed.

Lemma find_snoc {A : Type} (f : A -> bool) (l : list A) (x : A) :
  find f (l ++ [x])%list
  = match find f l with
    | Some y => Some y
    | None => if f x then Some x else None
    end.
Proof.
  induction l as [|y l IH]; simpl; [reflexivity|].
  destruct (f y); [reflexivity | exact IH].
Qed.

(** After a run of [set] calls a key holds what the last call on it set. *)
Lemma get_fold_latest (es : list (string * StoreRegion))
    (m : JsMap.t StoreRegion) (k : string) :
  JsMap.get (fold_left set_entry es m) k
  = match latest_entry es k with
    | Some region => Some region
    | None => JsMap.get m k
    end.
Proof.
  unfold latest_entry. revert m.
  induction es as [|[k0 v0] es IH]; intros m; simpl; [reflexivity|].
  rewrite IH, find_snoc.
  destruct (find (fun kv => fst kv =? k) (rev es)) as [kv|]; simpl;
    [reflexivity|].
  unfold set_entry. simpl. rewrite get_set.
  destruct (k0 =? k); reflexivity.
Qed.

End Refresh.

(** C6 (as amended). When [getRegionMap] refreshes the cache from a
    successful answer that lists regions, it sets the entries derived from
    the fetched list on the map already cached: afterwards every country
    code listed by a fetched region maps to the last fetched region that
    lists it, every other key maps to what the earlier snapshot had for it,
    the timestamp is the time of the refresh, and the map returned is the
    cached one. *)
Theorem C6_refresh_overlays_snapshot :
  forall (env : ProcessEnv) (w : World) (cache : RegionMapCache)
         (cacheId : string) (response : FetchResponse)
         (rs : list StoreRegion),
    fetched (getRegionMap env w cache cacheId) <> [] ->
    fetch w (regions_request env cacheId) = FetchResolves response ->
    ok response = true ->
    body response = JsonObject (Some rs) ->
    rs <> [] ->
    let r := getRegionMap env w cache cacheId in
    completion r = Returned (regionMap (cache_after r))
    /\ regionMapUpdated (cache_after r) = now_after_fetch w
    /\ forall k,
         JsMap.get (regionMap (cache_after r)) k
         = match latest_entry (fresh_entries rs) k with
           | Some region => Some region
           | None => JsMap.get (regionMap cache) k
           end.
Proof.
  intros env w cache cacheId response rs Hf Hr Hok Hbody Hne r. subst r.
  rewrite (getRegionMap_refreshed env w cache cacheId Hf Hr Hok Hbody Hne).
  simpl. split; [reflexivity|]. split; [reflexivity|].
  intros k. rewrite set_regions_entries. apply get_fold_latest.
Qed.

(** C6, witness: the stale [us] cache refreshed with [dk]. *)
Lemma C6_refresh_overlays_snapshot_witness :
  let r := getRegionMap env_default world_dk_only stale_cache_us "uuid" in
  completion r = Returned (regionMap (cache_after r))
  /\ regionMapUpdated (cache_after r) = 4000000%Z
  /\ JsMap.get (regionMap (cache_after r)) "dk" = Some reg_2.
Proof.
  assert (Hf : fetched (getRegionMap env_default world_dk_only
                                     stale_cache_us "uuid") <> [])
    by discriminate.
  assert (Hne : [reg_2] <> []) by discriminate.
  destruct (@C6_refresh_overlays_snapshot env_default world_dk_only
              stale_cache_us "uuid"
              {| ok := true; status := 200;
                 body := JsonObject (Some [reg_2]) |}
              [reg_2] Hf eq_refl eq_refl eq_refl Hne)
    as [H1 [H2 H3]].
  split; [exact H1 | split; [exact H2 | exact (H3 "dk")]].
Defined.

(** C6, counterexample: after the refresh the cached map still holds [us],
    an entry of the earlier snapshot that no fetched region gives. *)
Lemma C6_stale_entry_counterexample :
  let r := getRegionMap env_default world_dk_only stale_cache_us "uuid" in
  fetched r = [regions_request env_default "uuid"]
  /\ completion r = Returned [("us", reg_1); ("dk", reg_2)]
  /\ regionMap (cache_after r) = [("us", reg_1); ("dk", reg_2)]
  /\ fresh_entries [reg_2] = [("dk", reg_2)]
  /\ JsMap.get (regionMap (cache_after r)) "us" = Some reg_1
  /\ latest_entry (fresh_entries [reg_2]) "us" = None.
Proof. repeat split. Qed.

(** ** The root path *)
Section RootPath.

Context {V : Type}.
Variable env : ProcessEnv.
Variable regionMap : JsMap.t V.
Variable request : NextRequest.
Hypothesis root : pathname (nextUrl request) = "/".

Lemma root_url_segment : url_segment request = Some "".
Proof. unfold url_segment. now rewrite root. Qed.

Lemma root_first_path_segment : Staged.first_path_segment request = None.
Proof. unfold Staged.first_path_segment. now rewrite root. Qed.

Lemma root_prefixed_url (code : string) :
  prefixed_url request code
  = origin (nextUrl request) ++ "/" ++ code ++ search (nextUrl request).
Proof.
  unfold prefixed_url, redirectPath.
  now rewrite root, queryString_search.
Qed.

(** The root path carries no code. *)
Lemma root_carries_no_code (code : string) :
  Js.truthy code = true ->
  Js.strict_eq (url_segment request) (Some (Js.toLowerCase code)) = false.
Proof.
  intros H. rewrite root_url_segment. simpl.
  destruct code; [discriminate | reflexivity].
Qed.

Lemma root_staged (cacheId : string) :
  Staged.resolve env request regionMap cacheId
  = NextResponse_redirect
      (prefixed_url request (target_code env request regionMap)) 307.
Proof.
  unfold Staged.resolve, Staged.respond, target_code,
    Staged.urlAlreadyHasFallback.
  rewrite root_first_path_segment, root. simpl Js.includes.
  destruct (JsMap.size regionMap =? 0)%nat eqn:Ez.
  - apply size_zero in Ez. subst regionMap.
    now rewrite getCountryCode_empty.
  - destruct (getCountryCode env request regionMap) as [c|] eqn:Hc.
    + destruct (getCountryCode_key _ _ _ Hc) as [Ht _].
      unfold Staged.urlHasCountryCode.
      rewrite Ht, (root_carries_no_code _ Ht). simpl. now rewrite Ht.
    + reflexivity.
Qed.

Lemma root_compact (cacheId : string) :
  Compact.resolve env request regionMap cacheId
  = NextResponse_redirect
      (prefixed_url request (target_code env request regionMap)) 307.
Proof.
  unfold Compact.resolve, Compact.country, target_code.
  rewrite fallbackCountry_DEFAULT_REGION.
  destruct (getCountryCode env request regionMap) as [c|] eqn:Hc.
  - destruct (getCountryCode_key _ _ _ Hc) as [Ht _].
    now rewrite Ht, (root_carries_no_code _ Ht).
  - now rewrite (root_carries_no_code _ (DEFAULT_REGION_truthy env)).
Qed.

End RootPath.

Lemma query_shaped_not_slash (q : string) : query_shaped q = true -> q <> "/".
Proof. intros H E. subst q. discriminate. Qed.

(** C7. For the root path the handlers answer with a 307 redirect to
    [{origin}/{code}] followed by the query string only, where [code] is the
    resolved country code or else the fallback region; the target is never
    [{origin}/{code}/]. *)
Theorem C7_root_redirect_no_trailing_slash :
  forall (V : Type) (env : ProcessEnv) (request : NextRequest)
         (regionMap : JsMap.t V) (cacheId : string),
    pathname (nextUrl request) = "/" ->
    query_shaped (search (nextUrl request)) = true ->
    let code := target_code env request regionMap in
    let url := origin (nextUrl request) ++ "/" ++ code
               ++ search (nextUrl request) in
    Staged.resolve env request regionMap cacheId
    = NextResponse_redirect url 307
    /\ Compact.resolve env request regionMap cacheId
       = NextResponse_redirect url 307
    /\ url <> origin (nextUrl request) ++ "/" ++ code ++ "/".
Proof.
  intros V env request regionMap cacheId Hroot Hq code url.
  subst code url. split; [|split].
  - rewrite (root_staged env regionMap request Hroot).
    now rewrite (root_prefixed_url request Hroot).
  - rewrite (root_compact env regionMap request Hroot).
    now rewrite (root_prefixed_url request Hroot).
  - intros E. apply append_cancel_l in E.
    change ("/" ++ target_code env request regionMap
            ++ search (nextUrl request))
      with (String "/" (target_code env request regionMap
                        ++ search (nextUrl request))) in E.
    change ("/" ++ target_code env request regionMap ++ "/")
      with (String "/" (target_code env request regionMap ++ "/")) in E.
    injection E as E. apply append_cancel_l in E.
    exact (query_shaped_not_slash Hq E).
Qed.

(** C7, witness: [/] under the directory [{us, dk}] goes to [/dk]. *)
Lemma C7_root_redirect_no_trailing_slash_witness :
  Staged.resolve env_default (request_to "/" "" None) directory_us_dk "uuid"
  = NextResponse_redirect "https://shop.example/dk" 307
  /\ Compact.resolve env_default (request_to "/" "" None) directory_us_dk
                     "uuid"
     = NextResponse_redirect "https://shop.example/dk" 307.
Proof.
  destruct (@C7_root_redirect_no_trailing_slash StoreRegion env_default
              (request_to "/" "" None) directory_us_dk "uuid"
              eq_refl eq_refl) as [H1 [H2 _]].
  split; [exact H1 | exact H2].
Defined.

(** ** Every run leaves through one of the eight rules *)
Section Exhaustive.

Context {V : Type}.
Variable env : ProcessEnv.
Variable regionMap : JsMap.t V.
Variable request : NextRequest.
Variable cacheId : string.

Lemma fallbackCountry_truthy : Js.truthy (Staged.fallbackCountry env) = true.
Proof. rewrite fallbackCountry_DEFAULT_REGION. apply DEFAULT_REGION_truthy. Qed.

Lemma respond_staged_response :
  staged_response env regionMap request cacheId
    (fst (Staged.respond env request regionMap cacheId))
    (snd (Staged.respond env request regionMap cacheId)).
Proof.
  unfold Staged.respond.
  destruct (JsMap.size regionMap =? 0)%nat.
  { destruct (Staged.urlAlreadyHasFallback env request); simpl.
    - now apply sr_pass.
    - apply sr_redirect; [discriminate | apply fallbackCountry_truthy]. }
  destruct (Staged.urlHasCountryCode request
              (getCountryCode env request regionMap)) eqn:Hu.
  { destruct (cookie_medusa_cache_id request) eqn:Hk; simpl.
    - now apply sr_pass.
    - apply sr_cookie; [discriminate | exact Hk | now left]. }
  simpl.
  destruct (Js.includes "." (pathname (nextUrl request))); simpl.
  { now apply sr_pass. }
  destruct (Js.truthy_opt (getCountryCode env request regionMap)) eqn:Ht;
    simpl.
  { apply sr_redirect; [discriminate|].
    destruct (getCountryCode env request regionMap); [exact Ht|discriminate]. }
  fold (Staged.urlAlreadyHasFallback env request).
  destruct (Staged.urlAlreadyHasFallback env request) eqn:Hf; simpl.
  - destruct (cookie_medusa_cache_id request) eqn:Hk.
    + now apply sr_pass.
    + apply sr_cookie; [discriminate | exact Hk | now right].
  - apply sr_redirect; [discriminate | apply fallbackCountry_truthy].
Qed.

(** Prefixing a non-empty code never gives the request's own URL back. *)
Lemma prefixed_url_not_href (code : string) :
  Js.truthy code = true -> prefixed_url request code <> href (nextUrl request).
Proof.
  intros Ht E. unfold prefixed_url, href in E.
  apply append_cancel_l in E. rewrite queryString_search in E.
  apply (f_equal String.length) in E.
  rewrite !length_append in E. apply truthy_length in Ht.
  unfold redirectPath in E.
  destruct (pathname (nextUrl request) =? "/") eqn:Hp.
  - apply String.eqb_eq in Hp. rewrite Hp in E. simpl in E. lia.
  - simpl in E. lia.
Qed.

End Exhaustive.
(** C9. A redirect of the staged handler sets no cookie; and a response that
    sets one is a pass-through, issued to a request without the cookie whose
    path already carries the resolved country code or the fallback region. *)
Theorem C9_cookie_only_on_pass_through :
  forall (V : Type) (env : ProcessEnv) (request : NextRequest)
         (regionMap : JsMap.t V) (cacheId : string),
    let r := Staged.resolve env request regionMap cacheId in
    (is_redirect r = true -> cookies r = [])
    /\ (cookies r <> [] ->
        kind r = Next
        /\ cookie_medusa_cache_id request = None
        /\ (Staged.urlHasCountryCode request
              (getCountryCode env request regionMap) = true
            \/ Staged.urlAlreadyHasFallback env request = true)).
Proof.
  intros V env request regionMap cacheId r. subst r.
  pose proof (respond_staged_response env regionMap request cacheId) as H.
  unfold Staged.resolve.
  destruct H as [b _ | b _ Hk Hp | b code _ _]; simpl; split;
    try (intros _; reflexivity); try discriminate.
  - intros H. now elim H.
  - intros _. auto.
  - intros H. now elim H.
Qed.

(** The same at the level of a whole run of [middleware]. *)
Lemma middleware_redirect_sets_no_cookie (env : ProcessEnv) (w : World)
    (cache : RegionMapCache) (randomUUID : string) (request : NextRequest)
    (r : NextResponse) :
  completion (Staged.middleware env w cache randomUUID request) = Returned r ->
  is_redirect r = true -> cookies r = [].
Proof.
  unfold Staged.middleware, with_region_map. simpl.
  destruct (completion (getRegionMap env w cache
                                     (cacheId_of request randomUUID)))
    as [m|e]; [|discriminate].
  intros E. injection E as <-.
  pose proof (respond_staged_response env m request
                (cacheId_of request randomUUID)) as H.
  unfold Staged.resolve.
  destruct H; simpl; try reflexivity; discriminate.
Qed.

(** C10. On a fixed directory snapshot, two requests that differ only in the
    value of the [_medusa_cache_id] cookie they carry get the same response
    from the staged handler: the same decision, the same redirect target and
    the same (empty) set of cookies. *)
Theorem C10_cookie_value_irrelevant :
  forall (V : Type) (env : ProcessEnv) (request : NextRequest)
         (regionMap : JsMap.t V) (v1 v2 uuid1 uuid2 : string),
    Staged.resolve env (with_cookie request (Some v1)) regionMap
                   (cacheId_of (with_cookie request (Some v1)) uuid1)
    = Staged.resolve env (with_cookie request (Some v2)) regionMap
                     (cacheId_of (with_cookie request (Some v2)) uuid2).
Proof.
  intros V env request regionMap v1 v2 uuid1 uuid2.
  unfold Staged.resolve, Staged.respond.
  change (getCountryCode env (with_cookie request (Some v1)) regionMap)
    with (getCountryCode env request regionMap).
  change (getCountryCode env (with_cookie request (Some v2)) regionMap)
    with (getCountryCode env request regionMap).
  change (Staged.urlHasCountryCode (with_cookie request (Some v1)))
    with (Staged.urlHasCountryCode request).
  change (Staged.urlHasCountryCode (with_cookie request (Some v2)))
    with (Staged.urlHasCountryCode request).
  simpl.
  destruct (JsMap.size regionMap =? 0)%nat; [reflexivity|].
  destruct (Staged.urlHasCountryCode request
              (getCountryCode env request regionMap)); simpl; [reflexivity|].
  destruct (Js.includes "." (pathname (nextUrl request))); [reflexivity|].
  destruct (Js.truthy_opt (getCountryCode env request regionMap));
    reflexivity.
Qed.

(** ** The compact handler *)
Section CompactFacts.

Context {V : Type}.
Variable env : ProcessEnv.
Variable regionMap : JsMap.t V.
Variable request : NextRequest.

Lemma country_truthy :
  Js.truthy (Compact.country env (getCountryCode env request regionMap))
  = true.
Proof.
  unfold Compact.country.
  destruct (getCountryCode env request regionMap) as [c|];
    [|apply DEFAULT_REGION_truthy].
  destruct (Js.truthy c) eqn:E; [exact E | apply DEFAULT_REGION_truthy].
Qed.

(** It, too, sets the cookie on pass-through only and never redirects a
    request to its own URL. *)
Lemma compact_redirect_sets_no_cookie (cacheId : string) :
  is_redirect (Compact.resolve env request regionMap cacheId) = true ->
  cookies (Compact.resolve env request regionMap cacheId) = []
  /\ forall status,
       kind (Compact.resolve env request regionMap cacheId)
       <> Redirect (href (nextUrl request)) status.
Proof.
  unfold Compact.resolve.
  destruct (Js.strict_eq _ _).
  - destruct (cookie_medusa_cache_id request); discriminate.
  - intros _. split; [reflexivity|]. intros status E. injection E as E _.
    exact (@prefixed_url_not_href request _ country_truthy E).
Qed.

(** Rule 5 holds for it as well, and it passes the region-prefixed request
    through (static assets never reach [Compact.resolve]). *)
Lemma compact_redirect_then_fixed_point (cacheId c : string) :
  getCountryCode env request regionMap = Some c ->
  segment_is_code request regionMap = false ->
  Compact.resolve env request regionMap cacheId
  = NextResponse_redirect (prefixed_url request c) 307
  /\ (absolute_path (pathname (nextUrl request)) = true ->
      Js.includes "/" c = false ->
      forall cacheId',
        kind (Compact.resolve env (prefixed_request request c) regionMap
                              cacheId') = Next).
Proof.
  intros Hc Hn.
  pose proof (getCountryCode_key _ _ _ Hc) as [Ht Hh].
  pose proof (segment_is_code_false regionMap request c Hn Hh) as Hu.
  simpl in Hu. rewrite Ht in Hu. simpl in Hu. split.
  - unfold Compact.resolve, Compact.country. now rewrite Hc, Ht, Hu.
  - intros Ha Hs cacheId'.
    destruct (prefixed_request_settles env regionMap request Hc
                (segment_is_code_not_known regionMap request Hn) Ha Hs)
      as [c' [Hc' Hu']].
    pose proof (getCountryCode_key _ _ _ Hc') as [Ht' _].
    simpl in Hu'. rewrite Ht' in Hu'. simpl in Hu'.
    unfold Compact.resolve, Compact.country. rewrite Hc', Ht', Hu'.
    destruct (cookie_medusa_cache_id (prefixed_request request c));
      reflexivity.
Qed.

(** On the empty directory it compares [split("/")[1]] with the default
    region, and issues the cookie when it passes a cookie-less request. *)
Lemma compact_empty_directory (cacheId : string) :
  Compact.resolve env request (@JsMap.empty V) cacheId
  = if Js.strict_eq (url_segment request)
                    (Some (Js.toLowerCase (DEFAULT_REGION env)))
    then match cookie_medusa_cache_id request with
         | None => set_cache_id NextResponse_next cacheId
         | Some _ => NextResponse_next
         end
    else NextResponse_redirect (prefixed_url request (DEFAULT_REGION env)) 307.
Proof.
  unfold Compact.resolve, JsMap.empty. rewrite getCountryCode_empty.
  reflexivity.
Qed.

Lemma compact_cookie_value_irrelevant (v1 v2 uuid1 uuid2 : string) :
  Compact.resolve env (with_cookie request (Some v1)) regionMap
                  (cacheId_of (with_cookie request (Some v1)) uuid1)
  = Compact.resolve env (with_cookie request (Some v2)) regionMap
                    (cacheId_of (with_cookie request (Some v2)) uuid2).
Proof.
  unfold Compact.resolve.
  change (getCountryCode env (with_cookie request (Some v1)) regionMap)
    with (getCountryCode env request regionMap).
  change (getCountryCode env (with_cookie request (Some v2)) regionMap)
    with (getCountryCode env request regionMap).
  change (url_segment (with_cookie request (Some v1)))
    with (url_segment request).
  change (url_segment (with_cookie request (Some v2)))
    with (url_segment request).
  simpl. destruct (Js.strict_eq _ _); reflexivity.
Qed.

End CompactFacts.

(** The two worked examples of the specification. *)
Example example_products_shirt :
  Staged.resolve env_default (request_to "/products/shirt" "" None)
                 directory_us_dk "uuid"
  = NextResponse_redirect "https://shop.example/dk/products/shirt" 307.
Proof. reflexivity. Qed.

Example example_us_products_shirt :
  Staged.resolve env_default (request_to "/us/products/shirt" "" (Some "c1"))
                 directory_us_dk "uuid"
  = NextResponse_next.
Proof. reflexivity. Qed.


(** ** More on the ordered map and the refresh *)
Section MapOrder.

Lemma keys_set (m : JsMap.t StoreRegion) (k : string) (v : StoreRegion) :
  JsMap.keys (JsMap.set m k v)
  = if JsMap.has m k then JsMap.keys m else (JsMap.keys m ++ [k])%list.
Proof.
  induction m as [|[k0 v0] m IH]; simpl; [reflexivity|].
  destruct (k0 =? k); simpl; [reflexivity|].
  rewrite IH. unfold JsMap.has. destruct (existsb _ m); reflexivity.
Qed.

Lemma keys_fold_prefix (es : list (string * StoreRegion))
    (m : JsMap.t StoreRegion) :
  exists added,
    JsMap.keys (fold_left set_entry es m) = (JsMap.keys m ++ added)%list.
Proof.
  revert m. induction es as [|[k v] es IH]; intros m; simpl.
  - exists []. now rewrite app_nil_r.
  - destruct (IH (set_entry m (k, v))) as [added ->].
    unfold set_entry. simpl. rewrite keys_set.
    destruct (JsMap.has m k).
    + eauto.
    + rewrite <- app_assoc. eauto.
Qed.

Lemma NoDup_keys_set (m : JsMap.t StoreRegion) (k : string)
    (v : StoreRegion) :
  NoDup (JsMap.keys m) -> NoDup (JsMap.keys (JsMap.set m k v)).
Proof.
  intros H. rewrite keys_set. destruct (JsMap.has m k) eqn:E; [exact H|].
  apply NoDup_app.
  - exact H.
  - constructor; [intros [] | constructor].
  - intros a Ha [<-|[]]. apply has_In_keys in Ha. congruence.
Qed.

Lemma NoDup_keys_fold (es : list (string * StoreRegion))
    (m : JsMap.t StoreRegion) :
  NoDup (JsMap.keys m) -> NoDup (JsMap.keys (fold_left set_entry es m)).
Proof.
  revert m. induction es as [|[k v] es IH]; intros m H; simpl; [exact H|].
  apply IH. now apply NoDup_keys_set.
Qed.

Lemma needs_refresh_later (cache : RegionMapCache) (t t' : Z) :
  needs_refresh cache t = true -> (t <= t')%Z ->
  needs_refresh cache t' = true.
Proof.
  unfold needs_refresh. intros H Hle.
  apply orb_true_iff in H. apply orb_true_iff.
  destruct H as [H|H]; [now left | right].
  apply Z.ltb_lt in H. apply Z.ltb_lt. lia.
Qed.

End MapOrder.

(** ** Further properties of [getCountryCode] *)

(** X1. Whatever [getCountryCode] returns is a key of the directory it was
    given, and never the empty string. *)
Theorem X1_resolved_code_is_directory_key :
  forall (V : Type) (env : ProcessEnv) (request : NextRequest)
         (regionMap : JsMap.t V) (c : string),
    getCountryCode env request regionMap = Some c ->
    c <> "" /\ In c (JsMap.keys regionMap).
Proof.
  intros V env request regionMap c H.
  apply getCountryCode_key in H. destruct H as [Ht Hh]. split.
  - now apply truthy_true_iff.
  - now apply has_In_keys.
Qed.

(** X1, witness: [/products] under [{us, dk}] resolves [dk]. *)
Lemma X1_resolved_code_is_directory_key_witness :
  "dk" <> "" /\ In "dk" (JsMap.keys directory_us_dk).
Proof.
  exact (@X1_resolved_code_is_directory_key StoreRegion env_default
           (request_to "/products" "" None) directory_us_dk "dk" eq_refl).
Defined.

(** X2. [getCountryCode] returns [undefined] only when the default region
    is not a key of the directory and the directory is empty or opens with
    the empty-string key. *)
Theorem X2_unresolved_only_without_usable_entry :
  forall (V : Type) (env : ProcessEnv) (request : NextRequest)
         (regionMap : JsMap.t V),
    getCountryCode env request regionMap = None ->
    JsMap.has regionMap (DEFAULT_REGION env) = false
    /\ (regionMap = [] \/ JsMap.first_key regionMap = Some "").
Proof.
  intros V env request regionMap. unfold getCountryCode.
  destruct (known regionMap (url_segment request)) eqn:E1.
  { apply known_spec in E1. destruct E1 as [s [-> _]]. discriminate. }
  destruct (known regionMap (option_map Js.toLowerCase (cf_country request)))
    eqn:E2.
  { apply known_spec in E2. destruct E2 as [s [-> _]]. discriminate. }
  destruct (known regionMap
              (option_map Js.toLowerCase (x_vercel_ip_country request)))
    eqn:E3.
  { apply known_spec in E3. destruct E3 as [s [-> _]]. discriminate. }
  destruct (JsMap.has regionMap (DEFAULT_REGION env)); [discriminate|].
  destruct regionMap as [|[k v] m']; simpl.
  - intros _. auto.
  - destruct (Js.truthy k) eqn:Ek; [discriminate|]. intros _.
    split; [reflexivity|]. right.
    unfold Js.truthy in Ek. apply negb_false_iff, String.eqb_eq in Ek.
    now subst k.
Qed.

(** X2, witness: the directory a country without [iso_2] gives. *)
Lemma X2_unresolved_only_without_usable_entry_witness :
  let directory := set_regions JsMap.empty [region_without_iso] in
  JsMap.has directory (DEFAULT_REGION env_default) = false
  /\ (directory = [] \/ JsMap.first_key directory = Some "").
Proof.
  exact (@X2_unresolved_only_without_usable_entry StoreRegion env_default
           (request_to "/x" "" None)
           (set_regions JsMap.empty [region_without_iso]) eq_refl).
Defined.

(** X3. A code resolved from the path or from a geolocation hint is in lower
    case: a directory key with an upper-case letter can only be returned as
    the default region or as the first entry of the directory. *)
Theorem X3_mixed_case_key_only_by_default_or_first :
  forall (V : Type) (env : ProcessEnv) (request : NextRequest)
         (regionMap : JsMap.t V) (c : string),
    getCountryCode env request regionMap = Some c ->
    Js.toLowerCase c = c
    \/ c = DEFAULT_REGION env
    \/ JsMap.first_key regionMap = Some c.
Proof.
  intros V env request regionMap c. unfold getCountryCode, url_segment.
  repeat match goal with
  | |- context [known regionMap (option_map Js.toLowerCase ?o)] =>
      destruct (known regionMap (option_map Js.toLowerCase o));
      [ destruct o as [s|]; simpl; [|discriminate];
        intros H; injection H as <-; left; apply toLowerCase_idem | ]
  end.
  destruct (JsMap.has regionMap (DEFAULT_REGION env)).
  - intros H. injection H as <-. auto.
  - destruct (Js.truthy_opt (JsMap.first_key regionMap)); [|discriminate].
    auto.
Qed.

(** X3, witness: the key [US] is reached as the first entry. *)
Lemma X3_mixed_case_key_only_by_default_or_first_witness :
  Js.toLowerCase "US" = "US"
  \/ "US" = DEFAULT_REGION env_default
  \/ JsMap.first_key [("US", reg_1)] = Some "US".
Proof.
  exact (@X3_mixed_case_key_only_by_default_or_first StoreRegion env_default
           (request_to "/us" "" None) [("US", reg_1)] "US" eq_refl).
Defined.

(** ** Further properties of [getRegionMap] *)
Section CacheCalls.

Lemma first_key_keys (m : JsMap.t StoreRegion) :
  JsMap.first_key m = hd_error (JsMap.keys m).
Proof. destruct m as [|[k v] m]; reflexivity. Qed.

(** A refresh leaves the first key of a non-empty map where it was. *)
Lemma first_key_set_regions (m : JsMap.t StoreRegion)
    (rs : list StoreRegion) (k : string) :
  JsMap.first_key m = Some k ->
  JsMap.first_key (set_regions m rs) = Some k.
Proof.
  rewrite !first_key_keys, set_regions_entries.
  destruct (keys_fold_prefix (fresh_entries rs) m) as [added ->].
  destruct (JsMap.keys m); simpl; [discriminate | auto].
Qed.

(** What a call leaves in the cache: the map it found, or that map with the
    fetched regions set on it. *)
Lemma cache_after_map (env : ProcessEnv) (w : World)
    (cache : RegionMapCache) (cacheId : string) :
  regionMap (cache_after (getRegionMap env w cache cacheId))
  = regionMap cache
  \/ exists rs,
       regionMap (cache_after (getRegionMap env w cache cacheId))
       = set_regions (regionMap cache) rs.
Proof.
  destruct (getRegionMap_cache_kept env w cache cacheId)
    as [-> | [response [rs [Hne [Hr [Hok [Hbody Hf]]]]]]]; [now left|].
  right. exists rs.
  now rewrite (getRegionMap_refreshed env w cache cacheId Hf Hr Hok Hbody Hne).
Qed.

(** What a call returns: the cached map, a new empty map, or the cached map
    with the fetched regions set on it. *)
Lemma returned_map (env : ProcessEnv) (w : World)
    (cache : RegionMapCache) (cacheId : string) (m : JsMap.t StoreRegion) :
  completion (getRegionMap env w cache cacheId) = Returned m ->
  m = regionMap cache
  \/ m = JsMap.empty
  \/ exists rs, m = set_regions (regionMap cache) rs.
Proof.
  intros E.
  getRegionMap_outcomes env w cache cacheId; try discriminate;
    injection E as <-; auto.
  right. right.
  match goal with
  | H : body _ = JsonObject (Some ?l) |- _ => exists l
  end.
  reflexivity.
Qed.

End CacheCalls.

(** X4. A call of [getRegionMap] either leaves the cache object exactly as
    it was -- so whenever it throws, serves the cached map, or gets an answer
    without regions -- or it fetched a successful, non-empty region list, set
    it on the cached map, stamped the time and returned that map. *)
Theorem X4_cache_changes_only_on_refresh :
  forall (env : ProcessEnv) (w : World) (cache : RegionMapCache)
         (cacheId : string),
    let r := getRegionMap env w cache cacheId in
    cache_after r = cache
    \/ exists response rs,
         rs <> []
         /\ fetch w (regions_request env cacheId) = FetchResolves response
         /\ ok response = true
         /\ body response = JsonObject (Some rs)
         /\ fetched r = [regions_request env cacheId]
         /\ completion r = Returned (set_regions (regionMap cache) rs)
         /\ cache_after r
            = {| regionMap := set_regions (regionMap cache) rs;
                 regionMapUpdated := now_after_fetch w |}.
Proof.
  intros env w cache cacheId r. subst r.
  destruct (getRegionMap_cache_kept env w cache cacheId)
    as [H | [response [rs [Hne [Hr [Hok [Hbody Hf]]]]]]]; [now left|].
  right. exists response, rs.
  rewrite (getRegionMap_refreshed env w cache cacheId Hf Hr Hok Hbody Hne).
  repeat split; assumption.
Qed.

(** X5. After a refresh that left a map whose first key is not empty, a
    call made no later than 3 600 000 ms after the refresh makes no [fetch],
    returns the cached map and leaves the cache as it is. *)
Theorem X5_refreshed_cache_served_within_the_hour :
  forall (env : ProcessEnv) (w1 w2 : World) (cache : RegionMapCache)
         (id1 id2 : string) (response : FetchResponse)
         (rs : list StoreRegion),
    fetched (getRegionMap env w1 cache id1) <> [] ->
    fetch w1 (regions_request env id1) = FetchResolves response ->
    ok response = true ->
    body response = JsonObject (Some rs) ->
    rs <> [] ->
    Js.truthy_opt (JsMap.first_key (set_regions (regionMap cache) rs))
    = true ->
    (now w2 - 3600 * 1000 <= now_after_fetch w1)%Z ->
    getRegionMap env w2 (cache_after (getRegionMap env w1 cache id1)) id2
    = {| completion := Returned (set_regions (regionMap cache) rs);
         cache_after := cache_after (getRegionMap env w1 cache id1);
         fetched := [] |}.
Proof.
  intros env w1 w2 cache id1 id2 response rs Hf Hr Hok Hbody Hne Hk Ht.
  destruct (getRegionMap_fetched_nonempty env w1 cache id1 Hf) as [Hb _].
  rewrite (getRegionMap_refreshed env w1 cache id1 Hf Hr Hok Hbody Hne).
  simpl. apply getRegionMap_cached; [exact Hb|].
  unfold needs_refresh. simpl. rewrite Hk. simpl.
  apply Z.ltb_ge. lia.
Qed.

(** X5, witness: the stale [us] cache, refreshed at 4 000 000, asked again
    at 7 600 000. *)
Lemma X5_refreshed_cache_served_within_the_hour_witness :
  fetched
    (getRegionMap env_default
       (world_answering
          {| ok := false; status := 500; body := JsonObject None |} 7600000)
       (cache_after
          (getRegionMap env_default world_dk_only stale_cache_us "a"))
       "b")
  = [].
Proof.
  assert (Hf : fetched (getRegionMap env_default world_dk_only
                                     stale_cache_us "a") <> [])
    by discriminate.
  assert (Hne : [reg_2] <> []) by discriminate.
  assert (Ht : (7600000 - 3600 * 1000 <= 4000000)%Z) by lia.
  rewrite (@X5_refreshed_cache_served_within_the_hour env_default
             world_dk_only
             (world_answering
                {| ok := false; status := 500; body := JsonObject None |}
                7600000)
             stale_cache_us "a" "b"
             {| ok := true; status := 200;
                body := JsonObject (Some [reg_2]) |}
             [reg_2]
             Hf eq_refl eq_refl eq_refl Hne eq_refl Ht).
  reflexivity.
Defined.

(** X6. Nothing but a non-empty region list is cached: when a call fetched
    and the fetch was rejected, or the answer was a failure, had a body that
    is not JSON or is [null], or listed no regions, a call at the same or a
    later time fetches again. *)
Theorem X6_failure_or_empty_answer_is_fetched_again :
  forall (env : ProcessEnv) (w1 w2 : World) (cache : RegionMapCache)
         (id1 id2 : string),
    fetched (getRegionMap env w1 cache id1) <> [] ->
    fetch w1 (regions_request env id1) = FetchRejects
    \/ (exists response,
          fetch w1 (regions_request env id1) = FetchResolves response
          /\ (ok response = false
              \/ body response = NotJson
              \/ body response = JsonNull
              \/ body response = JsonObject None
              \/ body response = JsonObject (Some []))) ->
    (now w1 <= now w2)%Z ->
    fetched
      (getRegionMap env w2 (cache_after (getRegionMap env w1 cache id1)) id2)
    = [regions_request env id2].
Proof.
  intros env w1 w2 cache id1 id2 Hf Hbad Hle.
  destruct (getRegionMap_fetched_nonempty env w1 cache id1 Hf) as [Hb Hn].
  assert (Hc : cache_after (getRegionMap env w1 cache id1) = cache).
  { destruct (getRegionMap_cache_kept env w1 cache id1)
      as [H | [response [rs [Hne [Hr [Hok [Hbody _]]]]]]]; [exact H|].
    exfalso. destruct Hbad as [H | [response' [H H']]];
      rewrite Hr in H; [discriminate|].
    injection H as <-. rewrite Hok, Hbody in H'.
    destruct H' as [H | [H | [H | [H | H]]]]; try discriminate.
    injection H as ->. now elim Hne. }
  rewrite Hc, getRegionMap_fetched, Hb.
  now rewrite (needs_refresh_later cache Hn Hle).
Qed.

(** X6, witness: an empty cache and a backend answering 500. *)
Lemma X6_failure_or_empty_answer_is_fetched_again_witness :
  let down :=
    world_answering {| ok := false; status := 500; body := JsonObject None |}
                    10 in
  fetched
    (getRegionMap env_default down
       (cache_after (getRegionMap env_default down cache_at_start "a")) "b")
  = [regions_request env_default "b"].
Proof.
  intros down.
  assert (Hf : fetched (getRegionMap env_default down cache_at_start "a")
               <> []) by discriminate.
  assert (Hle : (now down <= now down)%Z) by lia.
  exact (@X6_failure_or_empty_answer_is_fetched_again env_default down down
           cache_at_start "a" "b" Hf
           (or_intror
              (ex_intro _ {| ok := false; status := 500;
                            body := JsonObject None |}
                        (conj eq_refl (or_introl eq_refl))))
           Hle).
Defined.

(** X7. A cache whose map opens with the empty-string key is never taken
    for fresh: with the backend configured, every call fetches, whatever the
    time, and the map it leaves still opens with the empty-string key. *)
Theorem X7_empty_first_key_always_refetches :
  forall (env : ProcessEnv) (w : World) (cache : RegionMapCache)
         (cacheId : string),
    Js.truthy_opt (BACKEND_URL env) = true ->
    JsMap.first_key (regionMap cache) = Some "" ->
    fetched (getRegionMap env w cache cacheId)
    = [regions_request env cacheId]
    /\ JsMap.first_key
         (regionMap (cache_after (getRegionMap env w cache cacheId)))
       = Some "".
Proof.
  intros env w cache cacheId Hb Hk.
  assert (Hn : needs_refresh cache (now w) = true).
  { unfold needs_refresh. now rewrite Hk. }
  split.
  - now rewrite getRegionMap_fetched, Hb, Hn.
  - destruct (cache_after_map env w cache cacheId) as [-> | [rs ->]];
      [exact Hk | now apply first_key_set_regions].
Qed.

(** X7, witness: a fresh cache built from a country without [iso_2]. *)
Lemma X7_empty_first_key_always_refetches_witness :
  let cache :=
    {| regionMap := set_regions JsMap.empty [region_without_iso; reg_2];
       regionMapUpdated := 4000000 |} in
  fetched (getRegionMap env_default world_dk_only cache "a")
  = [regions_request env_default "a"]
  /\ JsMap.first_key
       (regionMap
          (cache_after (getRegionMap env_default world_dk_only cache "a")))
     = Some "".
Proof.
  exact (@X7_empty_first_key_always_refetches env_default world_dk_only
           {| regionMap :=
                set_regions JsMap.empty [region_without_iso; reg_2];
              regionMapUpdated := 4000000 |} "a" eq_refl eq_refl).
Defined.

(** X8. [getRegionMap] only ever appends to the cached map: the keys cached
    before a call are, in the same order, the first keys cached after it. *)
Theorem X8_cached_keys_keep_their_order :
  forall (env : ProcessEnv) (w : World) (cache : RegionMapCache)
         (cacheId : string),
    exists added,
      JsMap.keys (regionMap (cache_after (getRegionMap env w cache cacheId)))
      = (JsMap.keys (regionMap cache) ++ added)%list.
Proof.
  intros env w cache cacheId.
  destruct (cache_after_map env w cache cacheId) as [-> | [rs ->]].
  - exists []. now rewrite app_nil_r.
  - rewrite set_regions_entries. apply keys_fold_prefix.
Qed.

(** X9. Distinct keys stay distinct: when no key occurs twice in the cached
    map, none does in the map cached after a call, nor in the map the call
    returns. *)
Theorem X9_keys_stay_distinct :
  forall (env : ProcessEnv) (w : World) (cache : RegionMapCache)
         (cacheId : string),
    NoDup (JsMap.keys (regionMap cache)) ->
    NoDup (JsMap.keys
             (regionMap (cache_after (getRegionMap env w cache cacheId))))
    /\ forall m,
         completion (getRegionMap env w cache cacheId) = Returned m ->
         NoDup (JsMap.keys m).
Proof.
  intros env w cache cacheId H.
  assert (Hs : forall rs,
             NoDup (JsMap.keys (set_regions (regionMap cache) rs))).
  { intros rs. rewrite set_regions_entries. now apply NoDup_keys_fold. }
  split.
  - destruct (cache_after_map env w cache cacheId) as [-> | [rs ->]];
      [exact H | apply Hs].
  - intros m E.
    destruct (returned_map env w cache cacheId E) as [-> | [-> | [rs ->]]];
      [exact H | apply NoDup_nil | apply Hs].
Qed.

(** X9, witness: the stale [us] cache refreshed with [dk]. *)
Lemma X9_keys_stay_distinct_witness :
  NoDup (JsMap.keys
           (regionMap
              (cache_after
                 (getRegionMap env_default world_dk_only stale_cache_us
                               "a")))).
Proof.
  assert (H : NoDup (JsMap.keys (regionMap stale_cache_us))).
  { constructor; [intros [] | constructor]. }
  exact (proj1 (@X9_keys_stay_distinct env_default world_dk_only
                  stale_cache_us "a" H)).
Defined.

(** X10. Last write wins: after the fetched regions are set on a map, a
    country code listed by several of them belongs to the last region that
    lists it (a country without [iso_2] counting as the code [""]), and a
    code none of them lists keeps the entry it had. *)
Theorem X10_last_listing_region_wins :
  forall (rs : list StoreRegion) (m : JsMap.t StoreRegion) (k : string),
    JsMap.get (set_regions m rs) k
    = match latest_entry (fresh_entries rs) k with
      | Some region => Some region
      | None => JsMap.get m k
      end.
Proof.
  intros rs m k. rewrite set_regions_entries. apply get_fold_latest.
Qed.

(** ** Further properties of [middleware] *)
Section HandlerFacts.

Context {V : Type}.
Variable env : ProcessEnv.
Variable regionMap : JsMap.t V.

(** A path that opens with a directory key resolves to that key. *)
Lemma known_segment_resolves (request : NextRequest) :
  known regionMap (url_segment request) = true ->
  exists s,
    getCountryCode env request regionMap = Some s
    /\ url_segment request = Some s
    /\ Js.truthy s = true
    /\ Js.toLowerCase s = s.
Proof.
  intros H. rewrite getCountryCode_by_segment, H.
  apply known_spec in H. destruct H as [s [Es [Ht _]]].
  exists s. repeat split; try assumption.
  unfold url_segment in Es.
  destruct (nth_error (Js.split "/" (pathname (nextUrl request))) 1)
    as [seg|]; [|discriminate].
  simpl in Es. injection Es as <-. apply toLowerCase_idem.
Qed.

Lemma known_segment_in_url (request : NextRequest) :
  known regionMap (url_segment request) = true ->
  Staged.urlHasCountryCode request (getCountryCode env request regionMap)
  = true.
Proof.
  intros H. destruct (known_segment_resolves request H)
    as [s [-> [Es [Ht El]]]].
  unfold Staged.urlHasCountryCode. rewrite Ht, Es, El. simpl.
  apply String.eqb_refl.
Qed.

(** The code of a redirect is never empty. *)
Lemma target_code_truthy (request : NextRequest) :
  Js.truthy (target_code env request regionMap) = true.
Proof.
  unfold target_code.
  destruct (getCountryCode env request regionMap) as [c|] eqn:E.
  - now destruct (getCountryCode_key _ _ _ E).
  - apply fallbackCountry_truthy.
Qed.

Lemma country_target_code (request : NextRequest) :
  Compact.country env (getCountryCode env request regionMap)
  = target_code env request regionMap.
Proof.
  unfold Compact.country, target_code.
  destruct (getCountryCode env request regionMap) as [c|] eqn:E.
  - destruct (getCountryCode_key _ _ _ E) as [-> _]. reflexivity.
  - symmetry. apply fallbackCountry_DEFAULT_REGION.
Qed.

(** A redirect of the staged handler: where to, and from which requests. *)
Lemma staged_redirect_inv (request : NextRequest) (cacheId : string) :
  is_redirect (Staged.resolve env request regionMap cacheId) = true ->
  Staged.resolve env request regionMap cacheId
  = NextResponse_redirect
      (prefixed_url request (target_code env request regionMap)) 307
  /\ known regionMap (url_segment request) = false.
Proof.
  unfold Staged.resolve, Staged.respond, target_code.
  destruct (known regionMap (url_segment request)) eqn:Hk.
  { pose proof (known_segment_in_url request Hk) as Hu.
    pose proof (known_segment_resolves request Hk) as [s [Hs _]].
    rewrite (resolved_nonempty _ _ _ Hs), Hu.
    destruct (cookie_medusa_cache_id request); discriminate. }
  destruct (JsMap.size regionMap =? 0)%nat eqn:Ez.
  { apply size_zero in Ez. subst regionMap. rewrite getCountryCode_empty.
    destruct (Staged.urlAlreadyHasFallback env request); [discriminate|].
    auto. }
  destruct (Staged.urlHasCountryCode request
              (getCountryCode env request regionMap)).
  { destruct (cookie_medusa_cache_id request); discriminate. }
  simpl.
  destruct (Js.includes "." (pathname (nextUrl request))); [discriminate|].
  destruct (getCountryCode env request regionMap) as [c|] eqn:Hc; simpl.
  - destruct (getCountryCode_key _ _ _ Hc) as [-> _]. auto.
  - destruct (Js.strict_eq _ _);
      [destruct (cookie_medusa_cache_id request); discriminate | auto].
Qed.

(** The region-prefixed path carries the code as its first non-empty
    segment. *)
Lemma first_path_segment_prefixed_request (request : NextRequest)
    (c : string) :
  absolute_path (pathname (nextUrl request)) = true ->
  Js.includes "/" c = false ->
  Js.truthy c = true ->
  Staged.first_path_segment (prefixed_request request c)
  = Some (Js.toLowerCase c).
Proof.
  intros Ha Hc Ht.
  unfold Staged.first_path_segment, prefixed_request. simpl.
  destruct (pathname (nextUrl request) =? "/").
  - rewrite append_empty, (split_whole _ _ Hc). simpl. now rewrite Ht.
  - destruct (absolute_path_inv _ Ha) as [rest ->].
    destruct (split_first "/" c rest Hc) as [segs ->]. simpl.
    now rewrite Ht.
Qed.

(** The staged handler passes the region-prefixed request through. *)
Lemma staged_follow_pass (request : NextRequest) (cacheId' : string) :
  known regionMap (url_segment request) = false ->
  absolute_path (pathname (nextUrl request)) = true ->
  Js.includes "/" (target_code env request regionMap) = false ->
  kind (Staged.resolve env
          (prefixed_request request (target_code env request regionMap))
          regionMap cacheId') = Next.
Proof.
  intros Hk Ha Hs. pose proof (target_code_truthy request) as Ht.
  unfold target_code in *.
  destruct (getCountryCode env request regionMap) as [c|] eqn:Hc.
  - destruct (prefixed_request_settles env regionMap request Hc Hk Ha Hs)
      as [c' [Hc' Hu']].
    unfold Staged.resolve.
    rewrite (respond_country_in_url env regionMap _ cacheId' Hc' Hu').
    destruct (cookie_medusa_cache_id (prefixed_request request c));
      reflexivity.
  - set (fb := Staged.fallbackCountry env) in *.
    pose proof (first_path_segment_prefixed_request request fb Ha Hs Ht)
      as Hseg.
    assert (Hfb : Staged.urlAlreadyHasFallback env (prefixed_request request fb)
                  = true).
    { unfold Staged.urlAlreadyHasFallback. fold fb. rewrite Hseg. simpl.
      apply String.eqb_refl. }
    destruct (known regionMap (url_segment (prefixed_request request fb)))
      eqn:Hk'.
    + pose proof (known_segment_in_url _ Hk') as Hu'.
      destruct (known_segment_resolves _ Hk') as [s [Hs' _]].
      rewrite Hs' in Hu'. unfold Staged.resolve.
      rewrite (respond_country_in_url env regionMap _ cacheId' Hs' Hu').
      destruct (cookie_medusa_cache_id (prefixed_request request fb));
        reflexivity.
    + assert (Hc' : getCountryCode env (prefixed_request request fb) regionMap
                    = None).
      { rewrite getCountryCode_by_segment, Hk'.
        rewrite getCountryCode_by_segment, Hk in Hc. exact Hc. }
      unfold Staged.resolve, Staged.respond. rewrite Hc', Hfb.
      fold (Staged.urlAlreadyHasFallback env (prefixed_request request fb)).
      rewrite Hfb. simpl.
      destruct (JsMap.size regionMap =? 0)%nat; [reflexivity|].
      destruct (Js.includes "." _); [reflexivity|].
      destruct (cookie_medusa_cache_id request); reflexivity.
Qed.

End HandlerFacts.

(** X11. Without a backend URL the staged handler throws on every request,
    static assets and already prefixed paths included; the compact handler
    still passes static-asset paths through and throws on the others.
    Neither fetches nor touches the cache. *)
Theorem X11_unconfigured_backend :
  forall (env : ProcessEnv) (w : World) (cache : RegionMapCache)
         (randomUUID : string) (request : NextRequest),
    Js.truthy_opt (BACKEND_URL env) = false ->
    Staged.middleware env w cache randomUUID request
    = {| completion := Thrown ErrorFetchingRegions;
         cache_after := cache; fetched := [] |}
    /\ Compact.middleware env w cache randomUUID request
       = {| completion :=
              if Js.includes "." (pathname (nextUrl request))
              then Returned NextResponse_next
              else Thrown ErrorFetchingRegions;
            cache_after := cache; fetched := [] |}.
Proof.
  intros env w cache randomUUID request Hb.
  unfold Staged.middleware, Compact.middleware, with_region_map, getRegionMap.
  rewrite Hb. simpl.
  destruct (Js.includes "." (pathname (nextUrl request))); split; reflexivity.
Qed.

(** X11, witness: [/dk/cart] and no [NEXT_PUBLIC_MEDUSA_BACKEND_URL]. *)
Lemma X11_unconfigured_backend_witness :
  completion
    (Staged.middleware env_unconfigured world_dk_only stale_cache_us "uuid"
                       (request_to "/dk/cart" "" None))
  = Thrown ErrorFetchingRegions.
Proof.
  rewrite (proj1 (@X11_unconfigured_backend env_unconfigured world_dk_only
                    stale_cache_us "uuid" (request_to "/dk/cart" "" None)
                    eq_refl)).
  reflexivity.
Defined.

(** X12. A response of either handler sets no cookie or exactly one: the
    [_medusa_cache_id] cookie with a max-age of 86 400 s, issued only to a
    request that carried none, its value the fresh [crypto.randomUUID()]. *)
Theorem X12_issued_cookie :
  forall (env : ProcessEnv) (w : World) (cache : RegionMapCache)
         (randomUUID : string) (request : NextRequest) (r : NextResponse),
    completion (Staged.middleware env w cache randomUUID request) = Returned r
    \/ completion (Compact.middleware env w cache randomUUID request)
       = Returned r ->
    cookies r = []
    \/ cookie_medusa_cache_id request = None
       /\ cookies r = [cache_id_cookie randomUUID].
Proof.
  intros env w cache randomUUID request r [H | H].
  - unfold Staged.middleware, with_region_map in H. simpl in H.
    destruct (completion (getRegionMap env w cache
                                       (cacheId_of request randomUUID)))
      as [m|e]; [|discriminate].
    injection H as <-.
    pose proof (respond_staged_response env m request
                  (cacheId_of request randomUUID)) as Hr.
    unfold Staged.resolve.
    destruct Hr as [b _ | b _ Hk _ | b code _ _]; simpl; auto.
    right. split; [exact Hk|]. unfold cacheId_of. now rewrite Hk.
  - unfold Compact.middleware, with_region_map in H.
    destruct (Js.includes "." (pathname (nextUrl request))).
    { simpl in H. injection H as <-. now left. }
    simpl in H.
    destruct (completion (getRegionMap env w cache
                                       (cacheId_of request randomUUID)))
      as [m|e]; [|discriminate].
    injection H as <-. unfold Compact.resolve.
    destruct (Js.strict_eq _ _); [|now left].
    destruct (cookie_medusa_cache_id request) eqn:Hk; [now left|].
    right. split; [reflexivity|]. unfold cacheId_of. now rewrite Hk.
Qed.

(** X12, witness: [/dk] without a cookie, served from a fresh cache. *)
Lemma X12_issued_cookie_witness :
  cookies (set_cache_id NextResponse_next "uuid") = []
  \/ cookie_medusa_cache_id (request_to "/dk" "" None) = None
     /\ cookies (set_cache_id NextResponse_next "uuid")
        = [cache_id_cookie "uuid"].
Proof.
  exact (@X12_issued_cookie env_default
           (world_answering
              {| ok := true; status := 200; body := JsonObject (Some [reg_2]) |} 1)
           cache_at_start "uuid" (request_to "/dk" "" None)
           (set_cache_id NextResponse_next "uuid") (or_introl eq_refl)).
Defined.

(** X16. The two handlers agree wherever a country code is resolved and the
    path has no dot in it: they return the same response, cookie included. *)
Theorem X16_handlers_agree_on_resolved_codes :
  forall (V : Type) (env : ProcessEnv) (request : NextRequest)
         (regionMap : JsMap.t V) (cacheId c : string),
    getCountryCode env request regionMap = Some c ->
    Js.includes "." (pathname (nextUrl request)) = false ->
    Staged.resolve env request regionMap cacheId
    = Compact.resolve env request regionMap cacheId.
Proof.
  intros V env request regionMap cacheId c Hc Hdot.
  destruct (getCountryCode_key _ _ _ Hc) as [Ht _].
  unfold Compact.resolve, Compact.country. rewrite Hc, Ht.
  destruct (Staged.urlHasCountryCode request (Some c)) eqn:Hu;
    unfold Staged.resolve.
  - rewrite (respond_country_in_url env regionMap request cacheId Hc Hu).
    simpl in Hu. rewrite Ht in Hu. simpl in Hu. rewrite Hu.
    destruct (cookie_medusa_cache_id request); reflexivity.
  - rewrite (respond_redirect_to_country env regionMap request cacheId
               Hc Hu Hdot).
    simpl in Hu. rewrite Ht in Hu. simpl in Hu. now rewrite Hu.
Qed.

(** X16, witness: [/products/shirt] under [{us, dk}]. *)
Lemma X16_handlers_agree_on_resolved_codes_witness :
  Staged.resolve env_default (request_to "/products/shirt" "" None)
                 directory_us_dk "uuid"
  = Compact.resolve env_default (request_to "/products/shirt" "" None)
                    directory_us_dk "uuid".
Proof.
  exact (@X16_handlers_agree_on_resolved_codes StoreRegion env_default
           (request_to "/products/shirt" "" None) directory_us_dk "uuid"
           "dk" eq_refl eq_refl).
Defined.

(** ** The URL a redirect is followed to *)
Section UrlFacts.

Lemma string_app_assoc (a b c : string) : (a ++ b) ++ c = a ++ b ++ c.
Proof. induction a as [|x a IH]; simpl; [reflexivity | now rewrite IH]. Qed.

Lemma all_chars_app (f : ascii -> bool) (a b : string) :
  Url.all_chars f (a ++ b) = Url.all_chars f a && Url.all_chars f b.
Proof.
  induction a as [|x a IH]; simpl; [reflexivity|].
  now rewrite IH, andb_assoc.
Qed.

Lemma all_chars_weaken (f g : ascii -> bool) (s : string) :
  (forall c, f c = true -> g c = true) ->
  Url.all_chars f s = true -> Url.all_chars g s = true.
Proof.
  intros Hfg. induction s as [|x s IH]; simpl; [reflexivity|].
  intros H. apply andb_true_iff in H. destruct H as [Hx Hs].
  now rewrite (Hfg _ Hx), (IH Hs).
Qed.

Lemma all_chars_includes (f : ascii -> bool) (c : ascii) (s : string) :
  f c = false -> Url.all_chars f s = true -> Js.includes c s = false.
Proof.
  intros Hc. induction s as [|x s IH]; simpl; [reflexivity|].
  intros H. apply andb_true_iff in H. destruct H as [Hx Hs].
  rewrite (IH Hs), orb_false_r.
  destruct (Ascii.eqb_spec x c) as [->|]; [congruence | reflexivity].
Qed.

Lemma plain_char_path_char (c : ascii) :
  Url.plain_char c = true -> Url.path_char c = true.
Proof.
  destruct c as [[] [] [] [] [] [] [] []]; vm_compute;
    intros H; try reflexivity; discriminate.
Qed.

(** No dot segment opens with a plain character. *)
Lemma plain_char_opens_no_dot (c : ascii) :
  Url.plain_char c = true ->
  Ascii.eqb (Js.lower_ascii c) "." = false
  /\ Ascii.eqb (Js.lower_ascii c) "%" = false.
Proof.
  destruct c as [[] [] [] [] [] [] [] []]; vm_compute;
    intros H; try (split; reflexivity); discriminate.
Qed.

Lemma plain_code_truthy (c : string) :
  plain_code c = true -> Js.truthy c = true.
Proof. unfold plain_code. intros H. now apply andb_true_iff in H. Qed.

Lemma plain_code_no_slash (c : string) :
  plain_code c = true -> Js.includes "/" c = false.
Proof.
  unfold plain_code. intros H. apply andb_true_iff in H.
  apply (all_chars_includes Url.plain_char); [reflexivity | tauto].
Qed.

Lemma plain_code_path_chars (c : string) :
  plain_code c = true -> Url.all_chars Url.path_char c = true.
Proof.
  unfold plain_code. intros H. apply andb_true_iff in H.
  apply (all_chars_weaken Url.plain_char); [apply plain_char_path_char|].
  tauto.
Qed.

Lemma plain_code_no_dot_segment (c : string) :
  plain_code c = true -> Url.dot_segment c = false.
Proof.
  unfold plain_code. intros H. apply andb_true_iff in H.
  destruct H as [Ht Hc]. destruct c as [|x c]; [discriminate|].
  simpl in Hc. apply andb_true_iff in Hc. destruct Hc as [Hx _].
  destruct (plain_char_opens_no_dot x Hx) as [Hd Hp].
  unfold Url.dot_segment, Url.single_dot, Url.double_dot. simpl.
  now rewrite Hd, Hp.
Qed.

(** Without dot segments the path state keeps every segment. *)
Lemma remove_dot_segments_id (segs path : list string) :
  forallb (fun seg => negb (Url.dot_segment seg)) segs = true ->
  Url.remove_dot_segments path segs = (path ++ segs)%list.
Proof.
  revert path. induction segs as [|seg segs IH]; intros path H; simpl.
  - now rewrite app_nil_r.
  - simpl in H. apply andb_true_iff in H. destruct H as [Hseg Hsegs].
    apply negb_true_iff in Hseg. unfold Url.dot_segment in Hseg.
    apply orb_false_iff in Hseg. destruct Hseg as [-> ->].
    rewrite (IH _ Hsegs), <- app_assoc. reflexivity.
Qed.

(** Serialising the segments of a path gives the path back. *)
Lemma serialize_split (s : string) :
  Url.serialize (Js.split "/" s) = "/" ++ s.
Proof.
  induction s as [|x s IH]; simpl; [reflexivity|].
  destruct (Ascii.eqb_spec x "/") as [->|Hx].
  - simpl. now rewrite IH.
  - destruct (Js.split "/" s) as [|seg segs]; simpl in *.
    + discriminate.
    + injection IH as IH. now rewrite IH.
Qed.

Lemma split_exact (sep : ascii) (c rest : string) :
  Js.includes sep c = false ->
  Js.split sep (c ++ String sep rest) = c :: Js.split sep rest.
Proof.
  induction c as [|x c IH]; simpl; intros H.
  - now rewrite Ascii.eqb_refl.
  - apply orb_false_iff in H. destruct H as [Hx Hc].
    now rewrite Hx, (IH Hc).
Qed.

(** Parsing a serialised pathname leaves it as it is. *)
Lemma pathname_of_serialized (p : string) :
  Url.serialized_path p = true -> Url.pathname_of p = Some p.
Proof.
  destruct p as [|x rest]; simpl; [discriminate|]. intros H.
  apply andb_true_iff in H. destruct H as [H Hsegs].
  rewrite H. apply andb_true_iff in H. destruct H as [Hx _].
  apply Ascii.eqb_eq in Hx. subst x.
  rewrite (remove_dot_segments_id _ [] Hsegs). simpl.
  now rewrite serialize_split.
Qed.

Lemma serialized_path_absolute (p : string) :
  Url.serialized_path p = true -> absolute_path p = true.
Proof.
  destruct p as [|x rest]; simpl; [discriminate|]. intros H.
  apply andb_true_iff in H. destruct H as [H _].
  apply andb_true_iff in H. tauto.
Qed.

(** A plain code put before a serialised pathname gives a serialised
    pathname. *)
Lemma serialized_path_prefixed (c p : string) :
  plain_code c = true ->
  Url.serialized_path p = true ->
  Url.serialized_path ("/" ++ c ++ (if p =? "/" then "" else p)) = true.
Proof.
  intros Hc Hp. pose proof (plain_code_path_chars c Hc) as Hchars.
  pose proof (plain_code_no_dot_segment c Hc) as Hdot.
  pose proof (plain_code_no_slash c Hc) as Hslash.
  simpl. destruct (p =? "/").
  - rewrite append_empty, Hchars, (split_whole _ _ Hslash). simpl.
    now rewrite Hdot.
  - destruct p as [|x rest]; [discriminate|]. simpl in Hp.
    apply andb_true_iff in Hp. destruct Hp as [Hp Hsegs].
    apply andb_true_iff in Hp. destruct Hp as [Hx Hrest].
    apply Ascii.eqb_eq in Hx. subst x.
    rewrite all_chars_app, Hchars. simpl. rewrite Hrest.
    rewrite (split_exact "/" c rest Hslash). simpl.
    now rewrite Hdot, Hsegs.
Qed.

Lemma strip_prefix_app (a b : string) : Url.strip_prefix a (a ++ b) = Some b.
Proof.
  induction a as [|x a IH]; simpl; [now destruct b|].
  now rewrite Ascii.eqb_refl.
Qed.

Lemma split_query_app (a q : string) :
  Url.all_chars Url.path_char a = true ->
  Url.serialized_search q = true ->
  Url.split_query (a ++ q) = (a, q).
Proof.
  intros Ha Hq. induction a as [|x a IH]; simpl.
  - destruct q as [|y q]; [reflexivity|]. simpl in Hq.
    apply andb_true_iff in Hq. destruct Hq as [Hq _].
    apply andb_true_iff in Hq. destruct Hq as [Hy _]. simpl.
    now rewrite Hy.
  - simpl in Ha. apply andb_true_iff in Ha. destruct Ha as [Hx Ha].
    rewrite (IH Ha). simpl.
    destruct (Ascii.eqb_spec x "?") as [->|]; [discriminate | reflexivity].
Qed.

Lemma search_of_serialized (q : string) :
  Url.serialized_search q = true -> Url.search_of q = Some q.
Proof.
  destruct q as [|y q]; simpl; [reflexivity|]. intros H.
  apply andb_true_iff in H. destruct H as [H Hq].
  apply andb_true_iff in H. destruct H as [_ Hne].
  rewrite Hq. apply negb_true_iff in Hne. now rewrite Hne.
Qed.

(** A URL in serialised form parses to its own pathname and search. *)
Lemma parse_serialized (o p q : string) :
  Url.serialized_path p = true ->
  Url.serialized_search q = true ->
  Url.parse o (o ++ p ++ q) = Some (p, q).
Proof.
  intros Hp Hq. unfold Url.parse. rewrite strip_prefix_app.
  assert (Hchars : Url.all_chars Url.path_char p = true).
  { destruct p as [|x rest]; [discriminate|]. simpl in *.
    apply andb_true_iff in Hp. destruct Hp as [Hp _].
    apply andb_true_iff in Hp. destruct Hp as [Hx Hrest].
    apply Ascii.eqb_eq in Hx. subst x. exact Hrest. }
  rewrite (split_query_app p q Hchars Hq). simpl.
  now rewrite (pathname_of_serialized p Hp), (search_of_serialized q Hq).
Qed.

Variable request : NextRequest.
Variable c : string.
Hypothesis plain : plain_code c = true.
Hypothesis in_form : serialized (nextUrl request) = true.

Lemma parse_region_prefixed :
  Url.parse (origin (nextUrl request))
            (region_prefixed_url (nextUrl request) c)
  = Some (pathname (nextUrl (prefixed_request request c)),
          search (nextUrl request)).
Proof.
  unfold serialized in in_form. apply andb_true_iff in in_form.
  destruct in_form as [Hp Hq].
  pose proof (serialized_path_prefixed c _ plain Hp) as Hp'.
  unfold region_prefixed_url, prefixed_request, next_request.
  cbn [pathname nextUrl].
  set (rp := if pathname (nextUrl request) =? "/" then ""
             else pathname (nextUrl request)) in *.
  rewrite <- (string_app_assoc c rp (search (nextUrl request))).
  change ("/" ++ (c ++ rp) ++ search (nextUrl request))
    with (("/" ++ c ++ rp) ++ search (nextUrl request)).
  now apply parse_serialized.
Qed.

(** The redirect to the region-prefixed URL is followed to the request for
    the region-prefixed path. *)
Lemma follow_redirect_prefixed :
  follow_redirect request (region_prefixed_url (nextUrl request) c)
  = Some (prefixed_request request c).
Proof. unfold follow_redirect. now rewrite parse_region_prefixed. Qed.

(** Its Location is that URL, as written. *)
Lemma Location_prefixed :
  Location request (region_prefixed_url (nextUrl request) c)
  = Some (region_prefixed_url (nextUrl request) c).
Proof.
  unfold Location. rewrite parse_region_prefixed. simpl.
  unfold region_prefixed_url. f_equal. f_equal.
  rewrite string_app_assoc. reflexivity.
Qed.

End UrlFacts.






(** A cache that is served as it is: [{us, dk}], stamped at the present. *)
Lemma fresh_cache_us_dk_served :
  getRegionMap env_default world_dk_only
    {| regionMap := directory_us_dk; regionMapUpdated := 4000000 |} "c1"
  = {| completion := Returned directory_us_dk;
       cache_after :=
         {| regionMap := directory_us_dk; regionMapUpdated := 4000000 |};
       fetched := [] |}.
Proof. reflexivity. Qed.

(** X13. When the map [getRegionMap] returns has the lower-cased first path
    segment of the request as a non-empty key, the request is never
    redirected, whatever the geolocation hints and the default region: the
    staged handler passes it through and issues the cookie exactly when the
    request carries none; so does the compact handler, except that it passes
    a path with a dot in it through without a cookie. *)
Theorem X13_prefixed_path_passes_through :
  forall (env : ProcessEnv) (w : World) (cache : RegionMapCache)
         (randomUUID : string) (request : NextRequest)
         (regionMap : JsMap.t StoreRegion),
    completion (getRegionMap env w cache (cacheId_of request randomUUID))
    = Returned regionMap ->
    known regionMap (url_segment request) = true ->
    let passed :=
      match cookie_medusa_cache_id request with
      | Some _ => NextResponse_next
      | None => set_cache_id NextResponse_next randomUUID
      end in
    completion (Staged.middleware env w cache randomUUID request)
    = Returned passed
    /\ completion (Compact.middleware env w cache randomUUID request)
       = Returned
           (if Js.includes "." (pathname (nextUrl request))
            then NextResponse_next else passed).
Proof.
  intros env w cache randomUUID request regionMap Hm Hk passed.
  subst passed.
  pose proof (known_segment_in_url env regionMap request Hk) as Hu.
  destruct (known_segment_resolves env regionMap request Hk)
    as [s [Hs [Es [Ht El]]]].
  rewrite Hs in Hu.
  assert (Hid : cookie_medusa_cache_id request = None ->
                cacheId_of request randomUUID = randomUUID).
  { intros H. unfold cacheId_of. now rewrite H. }
  split.
  - unfold Staged.middleware, with_region_map. simpl. rewrite Hm.
    unfold Staged.resolve.
    rewrite (respond_country_in_url env regionMap request _ Hs Hu).
    destruct (cookie_medusa_cache_id request); [reflexivity|].
    simpl. now rewrite Hid.
  - unfold Compact.middleware.
    destruct (Js.includes "." (pathname (nextUrl request)));
      [reflexivity|].
    unfold with_region_map. simpl. rewrite Hm.
    unfold Compact.resolve, Compact.country.
    rewrite Hs, Ht, Es, El. simpl. rewrite String.eqb_refl.
    destruct (cookie_medusa_cache_id request); [reflexivity|].
    now rewrite Hid.
Qed.

(** X13, witness: [/US/cart] with a Danish geolocation hint stays on [us]. *)
Lemma X13_prefixed_path_passes_through_witness :
  let request :=
    {| nextUrl := {| pathname := "/US/cart"; search := "";
                     origin := "https://shop.example" |};
       cf_country := Some "DK";
       x_vercel_ip_country := Some "DK";
       cookie_medusa_cache_id := Some "c1" |} in
  let cache :=
    {| regionMap := directory_us_dk; regionMapUpdated := 4000000 |} in
  completion (Staged.middleware env_default world_dk_only cache "uuid"
                                request)
  = Returned NextResponse_next
  /\ completion (Compact.middleware env_default world_dk_only cache "uuid"
                                    request)
     = Returned NextResponse_next.
Proof.
  intros request cache.
  exact (@X13_prefixed_path_passes_through env_default world_dk_only cache
           "uuid" request directory_us_dk
           (f_equal (@completion _) fresh_cache_us_dk_served) eq_refl).
Defined.

(** The code resolved for the region-prefixed request is, letter case
    aside, the code it was prefixed with. *)
Lemma target_code_prefixed_request {V : Type} (env : ProcessEnv)
    (regionMap : JsMap.t V) (request : NextRequest) :
  known regionMap (url_segment request) = false ->
  absolute_path (pathname (nextUrl request)) = true ->
  Js.includes "/" (target_code env request regionMap) = false ->
  Js.toLowerCase
    (target_code env
       (prefixed_request request (target_code env request regionMap))
       regionMap)
  = Js.toLowerCase (target_code env request regionMap).
Proof.
  intros Hk Ha Hs.
  set (tc := target_code env request regionMap) in *.
  pose proof (url_segment_prefixed_request request tc Ha Hs) as Hurl.
  unfold target_code at 1. rewrite getCountryCode_by_segment, Hurl.
  destruct (known regionMap (Some (Js.toLowerCase tc))).
  - apply toLowerCase_idem.
  - change (tl (candidates env (prefixed_request request tc) regionMap))
      with (tl (candidates env request regionMap)).
    subst tc. unfold target_code.
    now rewrite (getCountryCode_by_segment env request), Hk.
Qed.




